(** * rotkehlchen API layer: request validation fields, schemas and routing

    A shallow embedding of [rotkehlchen/api/v1/encoding.py] (typed fields and
    schema validators) and [rotkehlchen/api/server.py] (route registration and
    the error handlers), followed by the properties established about them.

    Python exceptions are modelled by the [result] type: a function that
    returns normally yields [Ok], one that raises yields [Raise] with the
    exception it raised. *)

From Stdlib Require Import ZArith QArith Ascii String Decimal DecimalString DecimalN.
From stdpp Require Import base decidable option list gmap sets strings.

#[local] Open Scope string_scope.
#[local] Open Scope list_scope.
#[local] Open Scope Z_scope.

(* ===================================================================== *)
(** * Part I: the embedding                                               *)
(* ===================================================================== *)

(** ** HTTP statuses and response bodies *)

(** The members of [http.HTTPStatus] the server uses. *)
Inductive HTTPStatus : Type := OK | BAD_REQUEST | NOT_FOUND | INTERNAL_SERVER_ERROR.

Definition status_code (status : HTTPStatus) : Z :=
  match status with
  | OK => 200
  | BAD_REQUEST => 400
  | NOT_FOUND => 404
  | INTERNAL_SERVER_ERROR => 500
  end.

(** The structured body of a response: the mapping with the keys [result]
    and [message].  A [result] of [None] is JSON [null]. *)
Record ResultDict : Type := {
  res_result : option string;
  res_message : string
}.

(** ** Exceptions and results *)

(** The exceptions the embedded code raises.  A [ValidationError] carries its
    message and the optional [field_name] keyword argument; an
    [HTTPException] is what [flask_restful.abort(code, **kwargs)] raises, with
    the keyword arguments as its data. *)
Inductive exn : Type :=
  | ValidationError (message : string) (field_name : option string)
  | DeserializationError (message : string)
  | ValueError (message : string)
  | IndexError (message : string)
  | HTTPException (code : HTTPStatus) (data : ResultDict).

Inductive result (A : Type) : Type :=
  | Ok (a : A)
  | Raise (e : exn).
Arguments Ok {A} a.
Arguments Raise {A} e.

#[global] Instance result_ret : MRet result := fun _ a => Ok a.

#[global] Instance result_bind : MBind result := fun _ _ k r =>
  match r with
  | Ok a => k a
  | Raise e => Raise e
  end.

Definition raises {A : Type} (r : result A) : Prop :=
  match r with
  | Ok _ => False
  | Raise _ => True
  end.

Definition is_validation_error {A : Type} (r : result A) : Prop :=
  match r with
  | Raise (ValidationError _ _) => True
  | _ => False
  end.

(** [value in (a, b)] on strings. *)
Definition in_tuple (value : string) (t : list string) : bool :=
  existsb (String.eqb value) t.

(** ** [str.lower] and [str.endswith] on ASCII text *)

Definition lower_ascii (c : ascii) : ascii :=
  let n := nat_of_ascii c in
  if (Nat.leb 65 n && Nat.leb n 90)%bool then ascii_of_nat (n + 32) else c.

Fixpoint lower (s : string) : string :=
  match s with
  | EmptyString => EmptyString
  | String c r => String (lower_ascii c) (lower r)
  end.

Fixpoint drop_str (n : nat) (s : string) : string :=
  match n, s with
  | O, _ => s
  | S n', String _ r => drop_str n' r
  | S _, EmptyString => EmptyString
  end.

Fixpoint take_str (n : nat) (s : string) : string :=
  match n, s with
  | O, _ => EmptyString
  | S n', String c r => String c (take_str n' r)
  | S _, EmptyString => EmptyString
  end.

Definition endswith (s suffix : string) : bool :=
  (Nat.leb (String.length suffix) (String.length s)
   && String.eqb (drop_str (String.length s - String.length suffix) s) suffix)%bool.

(** ** [SupportedBlockchain] and [BlockchainField] *)

Inductive SupportedBlockchain : Type := ETHEREUM | BITCOIN | KUSAMA.

#[global] Instance SupportedBlockchain_eq_dec : EqDecision SupportedBlockchain.
Proof. solve_decision. Defined.

(** [BlockchainField._deserialize] *)
Definition BlockchainField_deserialize (value : string) : result SupportedBlockchain :=
  if in_tuple value ["btc"; "BTC"] then Ok BITCOIN
  else if in_tuple value ["eth"; "ETH"] then Ok ETHEREUM
  else if in_tuple value ["ksm"; "KSM"] then Ok KUSAMA
  else Raise (ValidationError
                ("Unrecognized value " +:+ value +:+ " given for blockchain name") None).

(** ** [TaxFreeAfterPeriodField] *)

(** [TaxFreeAfterPeriodField._deserialize] on its declared input type [int]:
    there [int(value)] returns [value] unchanged and cannot raise. *)
Definition TaxFreeAfterPeriodField_deserialize (value : Z) : result Z :=
  if value <? -1 then
    Raise (ValidationError
             ("The taxfree_after_period value can not be negative, except for "
              +:+ "the value of -1 to disable the setting") None)
  else if value =? 0 then
    Raise (ValidationError "The taxfree_after_period value can not be set to zero" None)
  else Ok value.

(** ** Route registration ([server.py]) *)

(** A resource handler class.  Registration reads only its [__name__]. *)
Record Resource : Type := { __name__ : string }.

Definition cls (name : string) : Resource := {| __name__ := name |}.

(** An entry of a route table: a Python tuple.  [Tuple2] and [Tuple3] are the
    two shapes of the [URLS] type; [TupleOther] stands for a tuple of any other
    length, of which the code only takes the [repr]. *)
Inductive url_tuple : Type :=
  | Tuple2 (route : string) (resource_cls : Resource)
  | Tuple3 (route : string) (resource_cls : Resource) (endpoint : string)
  | TupleOther (repr : string).

Definition URLS_V1 : list url_tuple :=
  [
    Tuple2 "/users" (cls "UsersResource");
    Tuple2 "/watchers" (cls "WatchersResource");
    Tuple2 "/users/<string:name>" (cls "UsersByNameResource");
    Tuple2 "/users/<string:name>/password" (cls "UserPasswordChangeResource");
    Tuple2 "/settings" (cls "SettingsResource");
    Tuple2 "/tasks/" (cls "AsyncTasksResource");
    Tuple3 "/tasks/<int:task_id>" (cls "AsyncTasksResource") "specific_async_tasks_resource";
    Tuple2 "/exchange_rates" (cls "ExchangeRatesResource");
    Tuple2 "/external_services/" (cls "ExternalServicesResource");
    Tuple2 "/oracles" (cls "OraclesResource");
    Tuple2 "/oracles/<string:oracle>/cache" (cls "NamedOracleCacheResource");
    Tuple2 "/exchanges" (cls "ExchangesResource");
    Tuple2 "/exchanges/balances" (cls "ExchangeBalancesResource");
    Tuple3 "/exchanges/balances/<string:name>" (cls "ExchangeBalancesResource") "named_exchanges_balances_resource";
    Tuple2 "/assets/<string:asset>/icon" (cls "AssetIconsResource");
    Tuple3 "/assets/<string:asset>/icon/<string:size>" (cls "AssetIconsResource") "specific_size_asset_icons_resource";
    Tuple2 "/trades" (cls "TradesResource");
    Tuple2 "/ledgeractions" (cls "LedgerActionsResource");
    Tuple2 "/asset_movements" (cls "AssetMovementsResource");
    Tuple2 "/tags" (cls "TagsResource");
    Tuple2 "/exchanges/data/" (cls "ExchangesDataResource");
    Tuple3 "/exchanges/data/<string:name>" (cls "ExchangesDataResource") "named_exchanges_data_resource";
    Tuple2 "/balances/blockchains" (cls "BlockchainBalancesResource");
    Tuple3 "/balances/blockchains/<string:blockchain>" (cls "BlockchainBalancesResource") "named_blockchain_balances_resource";
    Tuple2 "/balances/" (cls "AllBalancesResource");
    Tuple2 "/balances/manual" (cls "ManuallyTrackedBalancesResource");
    Tuple2 "/statistics/netvalue" (cls "StatisticsNetvalueResource");
    Tuple2 "/statistics/balance/<string:asset>" (cls "StatisticsAssetBalanceResource");
    Tuple2 "/statistics/value_distribution" (cls "StatisticsValueDistributionResource");
    Tuple2 "/statistics/renderer" (cls "StatisticsRendererResource");
    Tuple2 "/messages/" (cls "MessagesResource");
    Tuple2 "/periodic/" (cls "PeriodicDataResource");
    Tuple2 "/history/" (cls "HistoryProcessingResource");
    Tuple2 "/history/status" (cls "HistoryStatusResource");
    Tuple2 "/history/export/" (cls "HistoryExportingResource");
    Tuple2 "/history/download/" (cls "HistoryDownloadingResource");
    Tuple2 "/queried_addresses" (cls "QueriedAddressesResource");
    Tuple2 "/blockchains/ETH/transactions" (cls "EthereumTransactionsResource");
    Tuple3 "/blockchains/ETH/transactions/<string:address>" (cls "EthereumTransactionsResource") "per_address_ethereum_transactions_resource";
    Tuple2 "/blockchains/ETH2/stake/deposits" (cls "Eth2StakeDepositsResource");
    Tuple2 "/blockchains/ETH2/stake/details" (cls "Eth2StakeDetailsResource");
    Tuple2 "/blockchains/ETH/defi" (cls "DefiBalancesResource");
    Tuple2 "/blockchains/ETH/airdrops" (cls "EthereumAirdropsResource");
    Tuple2 "/blockchains/ETH/modules/<string:module_name>/data" (cls "NamedEthereumModuleDataResource");
    Tuple2 "/blockchains/ETH/modules/data" (cls "EthereumModuleDataResource");
    Tuple2 "/blockchains/ETH/modules/" (cls "EthereumModuleResource");
    Tuple2 "/blockchains/ETH/modules/makerdao/dsrbalance" (cls "MakerdaoDSRBalanceResource");
    Tuple2 "/blockchains/ETH/modules/makerdao/dsrhistory" (cls "MakerdaoDSRHistoryResource");
    Tuple2 "/blockchains/ETH/modules/makerdao/vaults" (cls "MakerdaoVaultsResource");
    Tuple2 "/blockchains/ETH/modules/makerdao/vaultdetails" (cls "MakerdaoVaultDetailsResource");
    Tuple2 "/blockchains/ETH/modules/aave/balances" (cls "AaveBalancesResource");
    Tuple2 "/blockchains/ETH/modules/aave/history" (cls "AaveHistoryResource");
    Tuple2 "/blockchains/ETH/modules/adex/balances" (cls "AdexBalancesResource");
    Tuple2 "/blockchains/ETH/modules/adex/history" (cls "AdexHistoryResource");
    Tuple2 "/blockchains/ETH/modules/balancer/balances" (cls "BalancerBalancesResource");
    Tuple2 "/blockchains/ETH/modules/balancer/history/trades" (cls "BalancerTradesHistoryResource");
    Tuple2 "/blockchains/ETH/modules/balancer/history/events" (cls "BalancerEventsHistoryResource");
    Tuple2 "/blockchains/ETH/modules/compound/balances" (cls "CompoundBalancesResource");
    Tuple2 "/blockchains/ETH/modules/compound/history" (cls "CompoundHistoryResource");
    Tuple2 "/blockchains/ETH/modules/uniswap/balances" (cls "UniswapBalancesResource");
    Tuple2 "/blockchains/ETH/modules/uniswap/history/events" (cls "UniswapEventsHistoryResource");
    Tuple2 "/blockchains/ETH/modules/uniswap/history/trades" (cls "UniswapTradesHistoryResource");
    Tuple2 "/blockchains/ETH/modules/yearn/vaults/balances" (cls "YearnVaultsBalancesResource");
    Tuple2 "/blockchains/ETH/modules/yearn/vaults/history" (cls "YearnVaultsHistoryResource");
    Tuple2 "/blockchains/ETH/modules/loopring/balances" (cls "LoopringBalancesResource");
    Tuple2 "/blockchains/<string:blockchain>" (cls "BlockchainsAccountsResource");
    Tuple2 "/blockchains/BTC/xpub" (cls "BTCXpubResource");
    Tuple2 "/assets" (cls "OwnedAssetsResource");
    Tuple2 "/assets/all" (cls "AllAssetsResource");
    Tuple2 "/assets/ethereum" (cls "EthereumAssetsResource");
    Tuple2 "/assets/prices/current" (cls "CurrentAssetsPriceResource");
    Tuple2 "/assets/prices/historical" (cls "HistoricalAssetsPriceResource");
    Tuple2 "/assets/ignored" (cls "IgnoredAssetsResource");
    Tuple2 "/actions/ignored" (cls "IgnoredActionsResource");
    Tuple2 "/version" (cls "VersionResource");
    Tuple2 "/ping" (cls "PingResource");
    Tuple2 "/import" (cls "DataImportResource")
  ].

(** The [if]/[elif]/[else] at the head of the loop body of [setup_urls]:
    the route, the handler class and the endpoint name of one entry. *)
Definition resolve_url_tuple (url_tuple : url_tuple) : result (string * Resource * string) :=
  match url_tuple with
  | Tuple2 route resource_cls =>
      let endpoint := lower (__name__ resource_cls) in
      Ok (route, resource_cls, endpoint)
  | Tuple3 route resource_cls endpoint => Ok (route, resource_cls, endpoint)
  | TupleOther repr => Raise (ValueError ("Invalid URL format: " +:+ repr))
  end.

Section Router.
(** The framework's [Api] object and the shared backend object. *)
Context {Api RestAPI : Type}.

(** [flask_api_context.add_resource(resource_cls, route,
    resource_class_kwargs={"rest_api_object": rest_api}, endpoint=endpoint)]:
    the framework's registration, which returns the updated context or
    raises. *)
Variable add_resource : Api -> Resource -> string -> RestAPI -> string -> result Api.

(** [setup_urls] *)
Fixpoint setup_urls (flask_api_context : Api) (rest_api : RestAPI)
    (urls : list url_tuple) : result Api :=
  match urls with
  | [] => Ok flask_api_context
  | url_tuple :: urls' =>
      '(route, resource_cls, endpoint) ← resolve_url_tuple url_tuple;
      flask_api_context' ←
        add_resource flask_api_context resource_cls route rest_api endpoint;
      setup_urls flask_api_context' rest_api urls'
  end.
End Router.

(** The endpoint names a route table resolves to (entries of a wrong length
    resolve to none). *)
Definition endpoint_names (urls : list url_tuple) : list string :=
  omap (fun t => match resolve_url_tuple t with
                 | Ok (_, _, endpoint) => Some endpoint
                 | Raise _ => None
                 end) urls.

(** One call of [add_resource], as seen by the framework. *)
Record registration {RestAPI : Type} : Type := {
  reg_resource : Resource;
  reg_route : string;
  reg_rest_api_object : RestAPI;
  reg_endpoint : string
}.
Arguments registration : clear implicits.

(** The call of [add_resource] an entry of a route table resolves to (none
    for an entry of a wrong length). *)
Definition resolved_registration {RestAPI : Type} (rest_api : RestAPI)
    (t : url_tuple) : option (registration RestAPI) :=
  match resolve_url_tuple t with
  | Ok (route, resource_cls, endpoint) =>
      Some {| reg_resource := resource_cls; reg_route := route;
              reg_rest_api_object := rest_api; reg_endpoint := endpoint |}
  | Raise _ => None
  end.

Definition well_formed_tuple (t : url_tuple) : bool :=
  match t with
  | TupleOther _ => false
  | _ => true
  end.

(** ** Price oracle lists *)

(** [sep.join(l)] *)
Fixpoint join (sep : string) (l : list string) : string :=
  match l with
  | [] => ""
  | [x] => x
  | x :: r => x +:+ sep +:+ join sep r
  end.

(** The interface the validators use of an oracle enumeration: hashable
    members with equality, iteration over all members in definition order,
    and [str].  The enumerations themselves ([CurrentPriceOracle] of
    [rotkehlchen.inquirer], [HistoricalPriceOracle] of
    [rotkehlchen.history.typing]) are defined outside this layer. *)
Class OracleEnum (O : Type) `{Countable O} : Type := {
  enum_members : list O;
  enum_str : O -> string
}.

Section PriceOracles.
Context {CurrentPriceOracle : Type} `{OracleEnum CurrentPriceOracle}.
Context {HistoricalPriceOracle : Type} `{OracleEnum HistoricalPriceOracle}.

(** [_validate_current_price_oracles] *)
Definition _validate_current_price_oracles
    (current_price_oracles : list CurrentPriceOracle) : result unit :=
  if (Nat.eqb (length current_price_oracles) 0
      || negb (Nat.eqb (length current_price_oracles)
                 (size (list_to_set current_price_oracles : gset CurrentPriceOracle))))%bool
  then
    let oracle_names := enum_str <$> current_price_oracles in
    let supported_oracle_names := enum_str <$> (enum_members : list CurrentPriceOracle) in
    Raise (ValidationError
             ("Invalid current price oracles in: " +:+ join ", " oracle_names +:+ ". "
              +:+ "Supported oracles are: " +:+ join ", " supported_oracle_names +:+ ". "
              +:+ "Check there are no repeated ones.") None)
  else Ok tt.

(** [_validate_historical_price_oracles] *)
Definition _validate_historical_price_oracles
    (historical_price_oracles : list HistoricalPriceOracle) : result unit :=
  if (Nat.eqb (length historical_price_oracles) 0
      || negb (Nat.eqb (length historical_price_oracles)
                 (size (list_to_set historical_price_oracles : gset HistoricalPriceOracle))))%bool
  then
    let oracle_names := enum_str <$> historical_price_oracles in
    let supported_oracle_names := enum_str <$> (enum_members : list HistoricalPriceOracle) in
    Raise (ValidationError
             ("Invalid historical price oracles in: " +:+ join ", " oracle_names +:+ ". "
              +:+ "Supported oracles are: " +:+ join ", " supported_oracle_names +:+ ". "
              +:+ "Check there are no repeated ones.") None)
  else Ok tt.
End PriceOracles.

(** A two-member enumeration on which the validators are exercised. *)
Inductive SampleOracle : Type := OracleA | OracleB.

#[global] Instance SampleOracle_eq_dec : EqDecision SampleOracle.
Proof. solve_decision. Defined.

#[global] Instance SampleOracle_countable : Countable SampleOracle :=
  inj_countable'
    (fun o => match o with OracleA => false | OracleB => true end)
    (fun b : bool => if b then OracleB else OracleA)
    (fun o => match o with OracleA => eq_refl | OracleB => eq_refl end).

#[global] Instance SampleOracle_enum : OracleEnum SampleOracle := {|
  enum_members := [OracleA; OracleB];
  enum_str o := match o with OracleA => "A" | OracleB => "B" end
|}.

(** ** Arbitrary-precision decimals ([FVal]) *)

(** Modelled from the spec: the decimal type [FVal] of [rotkehlchen.fval],
    which is imported by [encoding.py] and not part of this layer.  The spec
    describes it as an arbitrary-precision decimal that is parsed from and
    printed as an exact decimal string.  A value is an integer coefficient
    and a number of fractional digits: it denotes [coeff / 10 ^ scale]. *)
Record FVal : Type := { fval_coeff : Z; fval_scale : nat }.

(** The number a decimal denotes. *)
Definition FVal_value (v : FVal) : Q :=
  Qmake (fval_coeff v) (Z.to_pos (10 ^ Z.of_nat (fval_scale v))).

(** Modelled from the spec: [FVal(n)] for a Python [int]. *)
Definition FVal_of_Z (n : Z) : FVal := {| fval_coeff := n; fval_scale := 0 |}.

(** Modelled from the spec: the constant [ZERO] of [rotkehlchen.constants.misc]. *)
Definition ZERO : FVal := FVal_of_Z 0.

(** Modelled from the spec: comparison of two decimals, by cross-scaling
    the coefficients to a common number of fractional digits. *)
Definition FVal_compare (a b : FVal) : comparison :=
  (fval_coeff a * 10 ^ Z.of_nat (fval_scale b)
   ?= fval_coeff b * 10 ^ Z.of_nat (fval_scale a)).

(** Modelled from the spec: the operators [<], [<=] and [>] of [FVal]. *)
Definition FVal_lt (a b : FVal) : bool :=
  match FVal_compare a b with Lt => true | _ => false end.

Definition FVal_le (a b : FVal) : bool :=
  match FVal_compare a b with Gt => false | _ => true end.

Definition FVal_gt (a b : FVal) : bool :=
  match FVal_compare a b with Gt => true | _ => false end.

(** Modelled from the spec: exact addition. *)
Definition FVal_add (a b : FVal) : FVal :=
  let s := Nat.max (fval_scale a) (fval_scale b) in
  {| fval_coeff := fval_coeff a * 10 ^ Z.of_nat (s - fval_scale a)
                   + fval_coeff b * 10 ^ Z.of_nat (s - fval_scale b);
     fval_scale := s |}.

(** Modelled from the spec: [x / FVal(100)], the division the percentage
    field performs ("normalize by dividing by 100"); it is exact. *)
Definition FVal_div_100 (v : FVal) : FVal :=
  {| fval_coeff := fval_coeff v; fval_scale := fval_scale v + 2 |}.

(** Modelled from the spec: [x * n] for a Python [int] [n]. *)
Definition FVal_mul_int (v : FVal) (n : Z) : FVal :=
  {| fval_coeff := fval_coeff v * n; fval_scale := fval_scale v |}.

(** The builtin [sum] over decimals: it starts from the integer [0]. *)
Definition FVal_sum (l : list FVal) : FVal := fold_left FVal_add l (FVal_of_Z 0).

(** Modelled from the spec: the parser of [FVal(s)] splits a numeral at its
    first ['.'] into the part before it and, when there is one, the part
    after it. *)
Fixpoint split_point (s : string) : string * option string :=
  match s with
  | EmptyString => (EmptyString, None)
  | String c r =>
      if Ascii.eqb c "." then (EmptyString, Some r)
      else let '(i, f) := split_point r in (String c i, f)
  end.

(** Modelled from the spec: the parse of an unsigned decimal numeral, which
    is digits, optionally a point and more digits, with at least one digit in
    all; it yields the coefficient and the number of fractional digits. *)
Definition parse_unsigned (s : string) : option (N * nat) :=
  let '(intpart, frac) := split_point s in
  let fracpart := default EmptyString frac in
  match intpart +:+ fracpart with
  | EmptyString => None
  | digits =>
      d ← NilEmpty.uint_of_string digits;
      Some (N.of_uint d, String.length fracpart)
  end.

(** Modelled from the spec: [FVal(s)] for a string, the parse of a decimal
    numeral with an optional sign; [None] when the string is not one. *)
Definition FVal_of_string (s : string) : option FVal :=
  match s with
  | EmptyString => None
  | String c r =>
      if Ascii.eqb c "-" then
        '(n, k) ← parse_unsigned r;
        Some {| fval_coeff := - Z.of_N n; fval_scale := k |}
      else if Ascii.eqb c "+" then
        '(n, k) ← parse_unsigned r;
        Some {| fval_coeff := Z.of_N n; fval_scale := k |}
      else
        '(n, k) ← parse_unsigned s;
        Some {| fval_coeff := Z.of_N n; fval_scale := k |}
  end.

(** [n] characters ['0']. *)
Fixpoint zeros (n : nat) : string :=
  match n with
  | O => EmptyString
  | S n' => String "0" (zeros n')
  end.

(** Modelled from the spec: the exact numeral of [n / 10 ^ scale], which is
    the digits of [n], padded with zeros on the left so that at least one
    digit precedes the point, with the point before the last [scale]
    digits. *)
Definition unsigned_str (n : N) (scale : nat) : string :=
  let digits := NilEmpty.string_of_uint (N.to_uint n) in
  let padded := zeros (S scale - String.length digits) +:+ digits in
  let m := (String.length padded - scale)%nat in
  take_str m padded
  +:+ (if Nat.eqb scale 0 then "" else "." +:+ drop_str m padded).

(** Modelled from the spec: [str(v)], the exact decimal numeral of a value,
    with as many fractional digits as its scale. *)
Definition FVal_str (v : FVal) : string :=
  (if fval_coeff v <? 0 then "-" else "")
  +:+ unsigned_str (Z.abs_N (fval_coeff v)) (fval_scale v).

(** [k] zero digits in front of a digit sequence: what the parser reads
    from a numeral padded with [zeros k]. *)
Fixpoint lead_zeros (k : nat) (d : uint) : uint :=
  match k with
  | O => d
  | S k' => D0 (lead_zeros k' d)
  end.

(** [str(n)] for a Python [int]. *)
Definition int_str (n : Z) : string := NilZero.string_of_int (Z.to_int n).

(** A raw amount as it arrives in a request: a JSON string or integer. *)
Inductive raw_amount : Type :=
  | RawStr (s : string)
  | RawInt (n : Z).

(** The rendering of a raw value inside an f-string. *)
Definition raw_str (value : raw_amount) : string :=
  match value with
  | RawStr s => s
  | RawInt n => int_str n
  end.

(** Modelled from the spec: the constructor [FVal(data)], which raises
    [ValueError] on text that is not a decimal numeral (the wording of its
    message is not fixed by the spec). *)
Definition FVal_init (data : raw_amount) : result FVal :=
  match data with
  | RawStr s =>
      match FVal_of_string s with
      | Some v => Ok v
      | None => Raise (ValueError ("Invalid decimal: " +:+ s))
      end
  | RawInt n => Ok (FVal_of_Z n)
  end.

(** Modelled from the spec: [deserialize_asset_amount] of
    [rotkehlchen.serialization.deserialize]: "parse as arbitrary-precision
    decimal", failing with a [DeserializationError]. *)
Definition deserialize_asset_amount (amount : raw_amount) : result FVal :=
  match FVal_init amount with
  | Ok v => Ok v
  | Raise (ValueError m) =>
      Raise (DeserializationError ("Failed to deserialize an amount entry: " +:+ m))
  | Raise e => Raise e
  end.

(** ** Amount fields *)

(** [AmountField._serialize] *)
Definition AmountField_serialize (value : FVal) : string := FVal_str value.

(** [AmountField._deserialize] *)
Definition AmountField_deserialize (value : raw_amount) : result FVal :=
  match deserialize_asset_amount value with
  | Ok amount => Ok amount
  | Raise (DeserializationError m) => Raise (ValidationError m None)
  | Raise e => Raise e
  end.

(** [PositiveAmountField._deserialize] *)
Definition PositiveAmountField_deserialize (value : raw_amount) : result FVal :=
  amount ← AmountField_deserialize value;
  if FVal_le amount ZERO then
    Raise (ValidationError
             ("Non-positive amount " +:+ raw_str value
              +:+ " given. Amount should be > 0") None)
  else Ok amount.

(** ** Percentage field *)

(** [FloatingPercentageField._deserialize] *)
Definition FloatingPercentageField_deserialize (value : string) : result FVal :=
  match FVal_init (RawStr value) with
  | Raise (ValueError m) => Raise (ValidationError m None)
  | Raise e => Raise e
  | Ok percentage =>
      if FVal_lt percentage ZERO then
        Raise (ValidationError "Percentage field can not be negative" None)
      else if FVal_gt percentage (FVal_of_Z 100) then
        Raise (ValidationError "Percentage field can not be greater than 100" None)
      else Ok (FVal_div_100 percentage)
  end.

(** ** Ethereum token schema *)

(** An entry of [underlying_tokens] after field deserialization
    ([UnderlyingTokenInfoSchema]): a checksummed address and a weight that
    went through the percentage field. *)
Record UnderlyingTokenInfo : Type := {
  ut_address : string;
  ut_weight : FVal
}.

(** The mapping [EthereumTokenSchema] hands to its validator, after field
    deserialization and defaults ([missing=None] fields are [None] when
    absent or null). *)
Record EthereumTokenData : Type := {
  tok_address : string;
  tok_decimals : Z;
  tok_name : string;
  tok_symbol : string;
  tok_started : option Z;
  tok_coingecko : option string;
  tok_cryptocompare : option string;
  tok_underlying_tokens : option (list UnderlyingTokenInfo)
}.

(** [EthereumTokenSchema.validate_ethereum_token_schema] *)
Definition validate_ethereum_token_schema (data : EthereumTokenData) : result unit :=
  let given_underlying_tokens := tok_underlying_tokens data in
  match given_underlying_tokens with
  | None => Ok tt
  | Some [] =>
      Raise (ValidationError
               ("Gave an empty list for underlying tokens of " +:+ tok_address data +:+ ". "
                +:+ "If you need to specify no underlying tokens give a null value") None)
  | Some tokens =>
      let weight_sum := FVal_sum (ut_weight <$> tokens) in
      if FVal_gt weight_sum (FVal_of_Z 1) then
        Raise (ValidationError
                 ("The sum of underlying token weights for " +:+ tok_address data +:+ " "
                  +:+ "is " +:+ FVal_str (FVal_mul_int weight_sum 100)
                  +:+ " and exceeds 100%") None)
      else Ok tt
  end.

(** The sum of the numbers a list of weights denotes. *)
Definition weights_total (tokens : list UnderlyingTokenInfo) : Q :=
  fold_right Qplus 0%Q (FVal_value <$> (ut_weight <$> tokens)).

(** ** Blockchain account schemas *)

(** One entry of [accounts] in the add/edit requests
    ([BlockchainAccountDataSchema]). *)
Record BlockchainAccountData : Type := {
  acc_address : string;
  acc_label : option string;
  acc_tags : option (list string)
}.

(** The mapping a blockchain-accounts schema hands to its validator and to
    its post-load hook; [A] is the type of an entry of [accounts]. *)
Record AccountsData (A : Type) : Type := {
  blockchain : SupportedBlockchain;
  accounts : list A;
  async_query : bool
}.
Arguments blockchain {A} _.
Arguments accounts {A} _.
Arguments async_query {A} _.

(** The error raised for an address met a second time. *)
Definition duplicate_address_error (address : string) : exn :=
  ValidationError
    ("Address " +:+ address +:+ " appears multiple times in the request data")
    (Some "address").

(** The outcome of loading a request through a schema: the whole-schema
    validator runs first, and the post-load hook runs only when it raised
    nothing. *)
Inductive load_outcome (A : Type) : Type :=
  | ValidationFailed (e : exn)
  | PostLoadFailed (e : exn)
  | Loaded (a : A).
Arguments ValidationFailed {A} e.
Arguments PostLoadFailed {A} e.
Arguments Loaded {A} a.

Section BlockchainAccounts.
(** [eth_utils.to_checksum_address]; [None] when it raises. *)
Variable to_checksum_address : string -> option string.
(** The address-format checks of [rotkehlchen.chain]. *)
Variable is_valid_btc_address : string -> bool.
Variable is_valid_kusama_address : string -> bool.
(** [EthereumManager.ens_lookup(name, blockchain=...)]. *)
Variable ens_lookup : string -> SupportedBlockchain -> option string.
(** [scriptpubkey_to_btc_address(bytes.fromhex(...))]; [None] when it raises
    [EncodingError]. *)
Variable scriptpubkey_to_btc_address : string -> option string.
(** [get_kusama_address_from_public_key]; [None] when it raises. *)
Variable get_kusama_address_from_public_key : string -> option string.

(** The loop of [_validate_blockchain_account_schemas] for Ethereum. *)
Fixpoint validate_ethereum_accounts {A : Type} (address_getter : A -> string)
    (accounts : list A) (given_addresses : gset string) : result unit :=
  match accounts with
  | [] => Ok tt
  | account_data :: accounts' =>
      let address_string := address_getter account_data in
      address ←
        (if negb (endswith address_string ".eth") then
           match to_checksum_address address_string with
           | Some address => Ok address
           | None =>
               Raise (ValidationError
                        ("Given value " +:+ address_string
                         +:+ " is not an ethereum address") (Some "address"))
           end
         else Ok address_string);
      if decide (address ∈ given_addresses) then
        Raise (duplicate_address_error address)
      else
        validate_ethereum_accounts address_getter accounts'
          ({[address]} ∪ given_addresses)
  end.

(** The loop of [_validate_blockchain_account_schemas] for Bitcoin. *)
Fixpoint validate_bitcoin_accounts {A : Type} (address_getter : A -> string)
    (accounts : list A) (given_addresses : gset string) : result unit :=
  match accounts with
  | [] => Ok tt
  | account_data :: accounts' =>
      let address := address_getter account_data in
      if (negb (endswith address ".eth") && negb (is_valid_btc_address address))%bool then
        Raise (ValidationError
                 ("Given value " +:+ address +:+ " is not a valid bitcoin address")
                 (Some "address"))
      else if decide (address ∈ given_addresses) then
        Raise (duplicate_address_error address)
      else
        validate_bitcoin_accounts address_getter accounts'
          ({[address]} ∪ given_addresses)
  end.

(** The loop of [_validate_blockchain_account_schemas] for Kusama. *)
Fixpoint validate_kusama_accounts {A : Type} (address_getter : A -> string)
    (accounts : list A) (given_addresses : gset string) : result unit :=
  match accounts with
  | [] => Ok tt
  | account_data :: accounts' =>
      let address := address_getter account_data in
      if (negb (endswith address ".eth") && negb (is_valid_kusama_address address))%bool then
        Raise (ValidationError
                 ("Given value " +:+ address +:+ " is not a valid kusama address")
                 (Some "address"))
      else if decide (address ∈ given_addresses) then
        Raise (duplicate_address_error address)
      else
        validate_kusama_accounts address_getter accounts'
          ({[address]} ∪ given_addresses)
  end.

(** [_validate_blockchain_account_schemas] *)
Definition _validate_blockchain_account_schemas {A : Type}
    (data : AccountsData A) (address_getter : A -> string) : result unit :=
  let given_addresses : gset string := ∅ in
  match blockchain data with
  | ETHEREUM => validate_ethereum_accounts address_getter (accounts data) given_addresses
  | BITCOIN => validate_bitcoin_accounts address_getter (accounts data) given_addresses
  | KUSAMA => validate_kusama_accounts address_getter (accounts data) given_addresses
  end.

(** [_transform_btc_address] *)
Definition _transform_btc_address (given_address : string) : result string :=
  if negb (endswith given_address ".eth") then Ok given_address
  else
    match ens_lookup given_address BITCOIN with
    | None =>
        Raise (ValidationError
                 ("Given ENS address " +:+ given_address
                  +:+ " could not be resolved for Bitcoin") (Some "address"))
    | Some resolved_address =>
        match scriptpubkey_to_btc_address resolved_address with
        | Some address => Ok address
        | None =>
            Raise (ValidationError
                     ("Given ENS address " +:+ given_address
                      +:+ " does not contain a valid Bitcoin "
                      +:+ "scriptpubkey: " +:+ resolved_address
                      +:+ ". Bitcoin address can't be obtained.") (Some "address"))
        end
    end.

(** [_transform_eth_address] *)
Definition _transform_eth_address (given_address : string) : result string :=
  match to_checksum_address given_address with
  | Some address => Ok address
  | None =>
      match ens_lookup given_address ETHEREUM with
      | None =>
          Raise (ValidationError
                   ("Given ENS address " +:+ given_address +:+ " could not be resolved")
                   (Some "address"))
      | Some resolved_address =>
          match to_checksum_address resolved_address with
          | Some address => Ok address
          | None => Raise (ValueError resolved_address)
          end
      end
  end.

(** [_transform_ksm_address] *)
Definition _transform_ksm_address (given_address : string) : result string :=
  if negb (endswith given_address ".eth") then Ok given_address
  else
    match ens_lookup given_address KUSAMA with
    | None =>
        Raise (ValidationError
                 ("Given ENS address " +:+ given_address
                  +:+ " could not be resolved for Kusama") (Some "address"))
    | Some resolved_address =>
        match get_kusama_address_from_public_key resolved_address with
        | Some address => Ok address
        | None =>
            Raise (ValidationError
                     ("Given ENS address " +:+ given_address
                      +:+ " does not contain a valid "
                      +:+ "Substrate public key: " +:+ resolved_address
                      +:+ ". Kusama address can't be obtained.") (Some "address"))
        end
    end.

Definition transform_address (chain : SupportedBlockchain) : string -> result string :=
  match chain with
  | BITCOIN => _transform_btc_address
  | ETHEREUM => _transform_eth_address
  | KUSAMA => _transform_ksm_address
  end.

(** [BlockchainAccountsPatchSchema.transform_data] (inherited by the Put
    schema): every account's address is replaced by its transformed one. *)
Definition BlockchainAccountsPatchSchema_transform_data
    (data : AccountsData BlockchainAccountData)
    : result (AccountsData BlockchainAccountData) :=
  accounts' ←
    mapM (fun account =>
            address ← transform_address (blockchain data) (acc_address account);
            Ok {| acc_address := address; acc_label := acc_label account;
                  acc_tags := acc_tags account |})
         (accounts data);
  Ok {| blockchain := blockchain data; accounts := accounts';
        async_query := async_query data |}.

(** [BlockchainAccountsDeleteSchema.transform_data] *)
Definition BlockchainAccountsDeleteSchema_transform_data
    (data : AccountsData string) : result (AccountsData string) :=
  accounts' ← mapM (transform_address (blockchain data)) (accounts data);
  Ok {| blockchain := blockchain data; accounts := accounts';
        async_query := async_query data |}.

(** Loading through a schema: [validates_schema], then [post_load]. *)
Definition load_with {A : Type} (validate : AccountsData A -> result unit)
    (transform_data : AccountsData A -> result (AccountsData A))
    (data : AccountsData A) : load_outcome (AccountsData A) :=
  match validate data with
  | Raise e => ValidationFailed e
  | Ok _ =>
      match transform_data data with
      | Raise e => PostLoadFailed e
      | Ok data' => Loaded data'
      end
  end.

(** [BlockchainAccountsPatchSchema] and [BlockchainAccountsPutSchema] *)
Definition BlockchainAccountsPatchSchema_load
    (data : AccountsData BlockchainAccountData) :=
  load_with (fun data => _validate_blockchain_account_schemas data acc_address)
            BlockchainAccountsPatchSchema_transform_data data.

(** [BlockchainAccountsDeleteSchema] *)
Definition BlockchainAccountsDeleteSchema_load (data : AccountsData string) :=
  load_with (fun data => _validate_blockchain_account_schemas data (fun x => x))
            BlockchainAccountsDeleteSchema_transform_data data.

(** What the validator compares: the checksummed form of an Ethereum
    address, the address itself for the other chains and for [.eth] names;
    it raises when the address fails the chain's format check. *)
Definition normalized_address (chain : SupportedBlockchain) (address : string)
    : result string :=
  match chain with
  | ETHEREUM =>
      if negb (endswith address ".eth") then
        match to_checksum_address address with
        | Some a => Ok a
        | None =>
            Raise (ValidationError
                     ("Given value " +:+ address +:+ " is not an ethereum address")
                     (Some "address"))
        end
      else Ok address
  | BITCOIN =>
      if (negb (endswith address ".eth") && negb (is_valid_btc_address address))%bool then
        Raise (ValidationError
                 ("Given value " +:+ address +:+ " is not a valid bitcoin address")
                 (Some "address"))
      else Ok address
  | KUSAMA =>
      if (negb (endswith address ".eth") && negb (is_valid_kusama_address address))%bool then
        Raise (ValidationError
                 ("Given value " +:+ address +:+ " is not a valid kusama address")
                 (Some "address"))
      else Ok address
  end.

(** The duplicate check shared by the three loops, over any per-address
    check [norm]. *)
Fixpoint dedup_loop (norm : string -> result string) (addresses : list string)
    (given_addresses : gset string) : result unit :=
  match addresses with
  | [] => Ok tt
  | a :: addresses' =>
      address ← norm a;
      if decide (address ∈ given_addresses) then
        Raise (duplicate_address_error address)
      else dedup_loop norm addresses' ({[address]} ∪ given_addresses)
  end.
End BlockchainAccounts.

(** [n] occurs at two different positions of [ns]. *)
Definition repeated (n : string) (ns : list string) : Prop :=
  exists i j : nat, (i < j)%nat /\ ns !! i = Some n /\ ns !! j = Some n.

(** ** Error handlers ([server.py]) *)

(** Modelled from the spec: [wrap_in_fail_result] of [rotkehlchen.api.rest],
    the "structured failure body": a null result and the message. *)
Definition wrap_in_fail_result (message : string) : ResultDict :=
  {| res_result := None; res_message := message |}.

(** A response: its structured body and its status. *)
Record Response : Type := {
  resp_body : ResultDict;
  resp_status : HTTPStatus
}.

(** Modelled from the spec: [api_response] of [rotkehlchen.api.rest], which
    makes the response out of a structured body and an HTTP status code. *)
Definition api_response (result : ResultDict) (status_code : HTTPStatus) : Response :=
  {| resp_body := result; resp_status := status_code |}.

(** The exception given to a Flask error handler.  The handlers read its
    text [str(exception)], whether it is werkzeug's [NotFound] (whose
    [description] is then available), and the logger reads its traceback. *)
Record PyException : Type := {
  exc_str : string;
  exc_traceback : string;
  exc_not_found : option string
}.

(** [endpoint_not_found] *)
Definition endpoint_not_found (e : PyException) : Response :=
  let msg := "invalid endpoint" in
  let msg := match exc_not_found e with
             | Some description => description
             | None => msg
             end in
  api_response (wrap_in_fail_result msg) NOT_FOUND.

(** A record written by the logger. *)
Inductive log_level : Type := INFO | CRITICAL.

Record log_record : Type := {
  log_lvl : log_level;
  log_msg : string;
  log_exc_info : option string
}.

(** [APIServer.unhandled_exception]: it writes one record to the log, with
    the traceback of the exception being handled ([exc_info=True]), and
    returns the response. *)
Definition unhandled_exception (exception : PyException) (log : list log_record)
    : list log_record * Response :=
  let log := log ++ [{| log_lvl := CRITICAL;
                        log_msg := "Unhandled exception when processing endpoint request";
                        log_exc_info := Some (exc_traceback exception) |}] in
  (log, api_response (wrap_in_fail_result (exc_str exception)) INTERNAL_SERVER_ERROR).

(** The key under which an error handler is registered with Flask: an HTTP
    status or an exception class. *)
Inductive handler_key : Type :=
  | ForStatus (status : HTTPStatus)
  | ForException (class_name : string).

(** An error handler, as Flask calls it with the error; the list of log
    records is the state of the logger. *)
Definition error_handler : Type :=
  PyException -> list log_record -> list log_record * Response.

(** The error handlers [APIServer.__init__] registers:
    [flask_app.errorhandler(HTTPStatus.NOT_FOUND)(endpoint_not_found)] and
    [flask_app.register_error_handler(Exception, self.unhandled_exception)]. *)
Definition APIServer_error_handlers : list (handler_key * error_handler) :=
  [ (ForStatus NOT_FOUND, fun e log => (log, endpoint_not_found e));
    (ForException "Exception", unhandled_exception) ].

(** The [APIServer] object after [__init__]. *)
Record APIServer {RestAPI App : Type} : Type := {
  srv_rest_api : RestAPI;
  srv_flask_app : App;
  srv_error_handlers : list (handler_key * error_handler);
  srv_wsgiserver : option unit;
  srv_greenlet : option unit
}.
Arguments APIServer : clear implicits.

Section Startup.
(** The framework: the [Api] context made for the blueprint
    ([Api(create_blueprint(), prefix=self._api_prefix)]), its [add_resource],
    and [flask_app.register_blueprint(self.blueprint)], which yields the
    application with the routes mounted, or raises. *)
Context {Api RestAPI App : Type}.
Variable new_api_context : Api.
Variable add_resource : Api -> Resource -> string -> RestAPI -> string -> result Api.
Variable register_blueprint : Api -> result App.

(** [APIServer.__init__], with the route table it passes to [setup_urls] as
    a parameter. *)
Definition APIServer_init_with (urls : list url_tuple) (rest_api : RestAPI)
    : result (APIServer RestAPI App) :=
  flask_api_context ← setup_urls add_resource new_api_context rest_api urls;
  flask_app ← register_blueprint flask_api_context;
  Ok {| srv_rest_api := rest_api; srv_flask_app := flask_app;
        srv_error_handlers := APIServer_error_handlers;
        srv_wsgiserver := None; srv_greenlet := None |}.

(** [APIServer.__init__]: the table is [URLS_V1]. *)
Definition APIServer_init (rest_api : RestAPI) : result (APIServer RestAPI App) :=
  APIServer_init_with URLS_V1 rest_api.
End Startup.

(** ** Request parsing errors ([server.py]) *)

Section ParsingErrors.
(** JSON values and [json.dumps]. *)
Context {JSON : Type}.
Variable json_dumps : JSON -> string.

(** [ValidationError.messages]: a mapping (in insertion order), a list of
    texts, or anything else. *)
Inductive error_messages : Type :=
  | MessagesDict (items : list (string * JSON))
  | MessagesList (items : list string)
  | MessagesOther.

(** The [ValidationError] the argument parser hands to its error handler. *)
Record ParsingError : Type := {
  err_str : string;
  err_messages : error_messages
}.

(** [handle_request_parsing_error]: it never returns, it raises. *)
Definition handle_request_parsing_error (err : ParsingError) : result unit :=
  let msg := err_str err in
  msg ← match err_messages err with
        | MessagesDict items =>
            match items with
            | [] => Raise (IndexError "list index out of range")
            | (key, value) :: _ => Ok (json_dumps value)
            end
        | MessagesList items => Ok (join "," items)
        | MessagesOther => Ok msg
        end;
  Raise (HTTPException BAD_REQUEST {| res_result := None; res_message := msg |}).
End ParsingErrors.
Arguments error_messages : clear implicits.
Arguments ParsingError : clear implicits.

(** ** Further parts of the layer *)

(** The path pattern of a route entry (an entry of a wrong length has
    none). *)
Definition route_of (t : url_tuple) : option string :=
  match t with
  | Tuple2 route _ => Some route
  | Tuple3 route _ _ => Some route
  | TupleOther _ => None
  end.

(** [s.startswith(prefix)] *)
Fixpoint startswith (s prefix : string) {struct prefix} : bool :=
  match prefix, s with
  | EmptyString, _ => true
  | String p prefix', String c s' => (Ascii.eqb c p && startswith s' prefix')%bool
  | String _ _, EmptyString => false
  end.

(** [ModifiableSettingsSchema.validate_settings_schema] reads one key of the
    mapping: [active_modules], a list of module names or [None]. *)
Record SettingsData : Type := { active_modules : option (list string) }.

Section Settings.
(** The keys of [AVAILABLE_MODULES_MAP] of [rotkehlchen.typing]. *)
Variable AVAILABLE_MODULES_MAP : list string.

(** The [for module in data['active_modules']] loop. *)
Fixpoint check_active_modules (modules : list string) : result unit :=
  match modules with
  | [] => Ok tt
  | module :: modules' =>
      if negb (in_tuple module AVAILABLE_MODULES_MAP) then
        Raise (ValidationError (module +:+ " is not a valid module")
                 (Some "active_modules"))
      else check_active_modules modules'
  end.

(** [ModifiableSettingsSchema.validate_settings_schema] *)
Definition validate_settings_schema (data : SettingsData) : result unit :=
  match active_modules data with
  | Some modules => check_active_modules modules
  | None => Ok tt
  end.
End Settings.

(** The value given to a [FileField]: an uploaded file (werkzeug's
    [FileStorage], of which the field reads the [filename]), a string, or
    anything else. *)
Inductive file_value : Type :=
  | FileStorage (filename : option string)
  | FileString (value : string)
  | FileOther.

Section Files.
(** [pathlib]: [Path(value).exists()], [.is_file()], [.suffix] and
    [str(Path(value))]. *)
Variable path_exists path_is_file : string -> bool.
Variable path_suffix : string -> string.
Variable path_str : string -> string.

(** [FileField._deserialize], for a field built with the given
    [allowed_extensions]. *)
Definition FileField_deserialize (allowed_extensions : option (list string))
    (value : file_value) : result file_value :=
  match value with
  | FileStorage filename =>
      match allowed_extensions, filename with
      | Some extensions, Some (String c name' as name) =>
          if negb (existsb (endswith name) extensions) then
            Raise (ValidationError
                     ("Given file " +:+ name +:+ " does not end in any of "
                      +:+ join "," extensions) None)
          else Ok value
      | _, _ => Ok value
      end
  | FileOther => Raise (ValidationError "Provided non string or file type for file" None)
  | FileString value' =>
      let path := value' in
      if negb (path_exists path) then
        Raise (ValidationError ("Given path " +:+ value' +:+ " does not exist") None)
      else if negb (path_is_file path) then
        Raise (ValidationError ("Given path " +:+ value' +:+ " is not a file") None)
      else
        match allowed_extensions with
        | Some extensions =>
            if negb (existsb (String.eqb (path_suffix path)) extensions) then
              Raise (ValidationError
                       ("Given file " +:+ path_str path +:+ " does not end in any of "
                        +:+ join "," extensions) None)
            else Ok value
        | None => Ok value
        end
  end.
End Files.

(** [s.split(sep)] for a non-empty separator: [skip] counts the characters
    of a separator found earlier that are still to be passed over. *)
Fixpoint split_skip (sep s : string) (skip : nat) : list string :=
  match s with
  | EmptyString => [EmptyString]
  | String c r =>
      match skip with
      | S k => split_skip sep r k
      | O =>
          if startswith s sep then
            EmptyString :: split_skip sep r (String.length sep - 1)
          else
            match split_skip sep r 0 with
            | piece :: pieces => String c piece :: pieces
            | [] => [String c EmptyString]
            end
      end
  end.

Definition split (sep s : string) : list string := split_skip sep s 0.

(** [sep] occurs somewhere in [s]. *)
Fixpoint occurs (sep s : string) : bool :=
  (startswith s sep
   || match s with
      | EmptyString => false
      | String _ r => occurs sep r
      end)%bool.

(** The value given to a [DelimitedOrNormalList]: a string, a list-like
    object, or anything else. *)
Inductive delimited_value : Type :=
  | DelimitedStr (value : string)
  | DelimitedItems (value : list string)
  | DelimitedOther.

Section Delimited.
Context {B : Type}.
(** The field's [delimiter] and its ["invalid"] error, both set by
    [webargs]. *)
Variable delimiter : string.
Variable invalid_error : exn.
(** [marshmallow.fields.List._deserialize] for the inner field. *)
Variable List_deserialize : list string -> result (list B).

(** [DelimitedOrNormalList._deserialize] *)
Definition DelimitedOrNormalList_deserialize (value : delimited_value)
    : result (list B) :=
  ret ← match value with
        | DelimitedItems items => Ok items
        | DelimitedStr s =>
            match delimiter with
            | EmptyString => Raise (ValueError "empty separator")
            | _ => Ok (split delimiter s)
            end
        | DelimitedOther => Raise invalid_error
        end;
  List_deserialize ret.
End Delimited.

(** [FloatingPercentageField._serialize] *)
Definition FloatingPercentageField_serialize (value : FVal) : string := FVal_str value.

(** [UnderlyingToken] and [CustomEthereumToken] of
    [rotkehlchen.chain.ethereum.typing], with the fields the post-load hook
    passes to their constructors. *)
Record UnderlyingToken : Type := {
  address : string;
  weight : FVal
}.

Record CustomEthereumToken : Type := {
  cet_address : string;
  cet_decimals : Z;
  cet_name : string;
  cet_symbol : string;
  cet_started : option Z;
  cet_coingecko : option string;
  cet_cryptocompare : option string;
  cet_underlying_tokens : option (list UnderlyingToken)
}.

(** [EthereumTokenSchema.transform_data] *)
Definition EthereumTokenSchema_transform_data (data : EthereumTokenData)
    : CustomEthereumToken :=
  let given_underlying_tokens := tok_underlying_tokens data in
  let underlying_tokens :=
    match given_underlying_tokens with
    | Some entries =>
        Some ((fun entry => {| address := ut_address entry;
                               weight := ut_weight entry |}) <$> entries)
    | None => None
    end in
  {| cet_address := tok_address data; cet_decimals := tok_decimals data;
     cet_name := tok_name data; cet_symbol := tok_symbol data;
     cet_started := tok_started data; cet_coingecko := tok_coingecko data;
     cet_cryptocompare := tok_cryptocompare data;
     cet_underlying_tokens := underlying_tokens |}.

(** Loading through [EthereumTokenSchema]: [validates_schema], then
    [post_load]. *)
Definition EthereumTokenSchema_load (data : EthereumTokenData)
    : load_outcome CustomEthereumToken :=
  match validate_ethereum_token_schema data with
  | Raise e => ValidationFailed e
  | Ok _ => Loaded (EthereumTokenSchema_transform_data data)
  end.

(** ** Decimal strings, read digit by digit *)

(** The reference against which the amount field is compared: the number a
    decimal string denotes, computed in one pass over its characters.  A
    decimal string is an optional sign, digits, and optionally a point and
    more digits, with at least one digit in all. *)

(** The digit a character stands for. *)
Definition digit_of (c : ascii) : option N :=
  let n := N_of_ascii c in
  if (N.leb 48 n && N.leb n 57)%bool then Some (n - 48)%N else None.

(** The digits after the point: the coefficient goes on accumulating and
    the digits are counted. *)
Fixpoint fraction_digits (s : string) (coeff : N) (count : nat) : option (N * nat) :=
  match s with
  | EmptyString => Some (coeff, count)
  | String c r =>
      k ← digit_of c;
      fraction_digits r (10 * coeff + k)%N (S count)
  end.

(** The digits before the point, and what follows it. *)
Fixpoint integer_digits (s : string) (coeff : N) : option (N * nat) :=
  match s with
  | EmptyString => Some (coeff, O)
  | String c r =>
      if Ascii.eqb c "." then fraction_digits r coeff 0
      else k ← digit_of c; integer_digits r (10 * coeff + k)%N
  end.

Fixpoint has_digit (s : string) : bool :=
  match s with
  | EmptyString => false
  | String c r => (bool_decide (is_Some (digit_of c)) || has_digit r)%bool
  end.

(** The coefficient and the number of fractional digits of an unsigned
    decimal string. *)
Definition unsigned_string_value (s : string) : option (N * nat) :=
  if has_digit s then integer_digits s 0 else None.

(** The number a decimal string denotes; [None] for any other string. *)
Definition decimal_string_value (s : string) : option Q :=
  match s with
  | EmptyString => None
  | String c r =>
      if Ascii.eqb c "-" then
        '(n, k) ← unsigned_string_value r;
        Some (Qmake (- Z.of_N n) (Z.to_pos (10 ^ Z.of_nat k)))
      else if Ascii.eqb c "+" then
        '(n, k) ← unsigned_string_value r;
        Some (Qmake (Z.of_N n) (Z.to_pos (10 ^ Z.of_nat k)))
      else
        '(n, k) ← unsigned_string_value s;
        Some (Qmake (Z.of_N n) (Z.to_pos (10 ^ Z.of_nat k)))
  end.

(** The value of a digit string, most significant digit first, on top of an
    accumulated coefficient. *)
Fixpoint digits_value (acc : N) (s : string) : option N :=
  match s with
  | EmptyString => Some acc
  | String c r => k ← digit_of c; digits_value (10 * acc + k)%N r
  end.

(** The same evaluation over the standard library's digit sequences. *)
Fixpoint horner_uint (acc : N) (d : uint) : N :=
  match d with
  | Nil => acc
  | D0 l => horner_uint (10 * acc + 0)%N l
  | D1 l => horner_uint (10 * acc + 1)%N l
  | D2 l => horner_uint (10 * acc + 2)%N l
  | D3 l => horner_uint (10 * acc + 3)%N l
  | D4 l => horner_uint (10 * acc + 4)%N l
  | D5 l => horner_uint (10 * acc + 5)%N l
  | D6 l => horner_uint (10 * acc + 6)%N l
  | D7 l => horner_uint (10 * acc + 7)%N l
  | D8 l => horner_uint (10 * acc + 8)%N l
  | D9 l => horner_uint (10 * acc + 9)%N l
  end.

(* ===================================================================== *)
(** * Part II: properties                                                 *)
(* ===================================================================== *)

(** ** Blockchain field *)

Lemma in_tuple_spec (value : string) (t : list string) :
  in_tuple value t = true <-> value ∈ t.
Proof.
  unfold in_tuple. rewrite existsb_exists. split.
  - intros (x & Hin & Heq). apply String.eqb_eq in Heq. subst.
    by apply list_elem_of_In.
  - intros Hin. exists value. split; [by apply list_elem_of_In|apply String.eqb_refl].
Qed.

Lemma in_tuple_false (value : string) (t : list string) :
  in_tuple value t = false <-> value ∉ t.
Proof.
  rewrite <- in_tuple_spec. destruct (in_tuple value t); split; congruence.
Qed.

(** C1 (as stated) fails: the mixed-case spelling of a supported short code
    lower-cases to that code and is nevertheless rejected. *)
Lemma BlockchainField_mixed_case_rejected :
  lower "Btc" = "btc" /\
  BlockchainField_deserialize "Btc" =
    Raise (ValidationError "Unrecognized value Btc given for blockchain name" None).
Proof. split; reflexivity. Qed.

(** C1 (amended): the blockchain field accepts exactly the all-lower-case and
    the all-upper-case spelling of each short code, mapping [btc]/[BTC],
    [eth]/[ETH] and [ksm]/[KSM] to Bitcoin, Ethereum and Kusama; every other
    string raises a validation error whose message contains the given value. *)
Theorem BlockchainField_deserialize_spec (value : string) :
  (value ∈ ["btc"; "BTC"] -> BlockchainField_deserialize value = Ok BITCOIN) /\
  (value ∈ ["eth"; "ETH"] -> BlockchainField_deserialize value = Ok ETHEREUM) /\
  (value ∈ ["ksm"; "KSM"] -> BlockchainField_deserialize value = Ok KUSAMA) /\
  (value ∉ ["btc"; "BTC"; "eth"; "ETH"; "ksm"; "KSM"] ->
   BlockchainField_deserialize value =
     Raise (ValidationError
              ("Unrecognized value " +:+ value +:+ " given for blockchain name") None)).
Proof.
  repeat split; intros H.
  1-3: apply list_elem_of_In in H; simpl in H;
       destruct H as [<-|[<-|[]]]; reflexivity.
  unfold BlockchainField_deserialize.
  assert (Hsub : forall t : list string,
             (forall x, In x t -> In x ["btc"; "BTC"; "eth"; "ETH"; "ksm"; "KSM"]) ->
             in_tuple value t = false).
  { intros t Ht. apply in_tuple_false. intros Hin. apply H.
    apply list_elem_of_In, Ht. by apply list_elem_of_In. }
  rewrite !Hsub; [done|simpl; tauto..].
Qed.

Lemma BlockchainField_deserialize_spec_witness :
  BlockchainField_deserialize "BTC" = Ok BITCOIN /\
  BlockchainField_deserialize "eth" = Ok ETHEREUM /\
  BlockchainField_deserialize "KSM" = Ok KUSAMA /\
  BlockchainField_deserialize "xyz" =
    Raise (ValidationError "Unrecognized value xyz given for blockchain name" None).
Proof.
  split; [|split; [|split]].
  - apply (proj1 (BlockchainField_deserialize_spec "BTC")).
    apply list_elem_of_In. simpl. auto.
  - apply (proj1 (proj2 (BlockchainField_deserialize_spec "eth"))).
    apply list_elem_of_In. simpl. auto.
  - apply (proj1 (proj2 (proj2 (BlockchainField_deserialize_spec "KSM")))).
    apply list_elem_of_In. simpl. auto.
  - apply (proj2 (proj2 (proj2 (BlockchainField_deserialize_spec "xyz")))).
    intros Hin. apply list_elem_of_In in Hin. simpl in Hin.
    repeat (destruct Hin as [Hin|Hin]; [discriminate Hin|]). exact Hin.
Defined.

(** ** Tax-free-after-period field *)

(** C7: the tax-free-after-period field returns [-1] and every positive
    integer unchanged, and raises a validation error for [0] and for every
    integer below [-1]. *)
Theorem TaxFreeAfterPeriodField_deserialize_spec (value : Z) :
  (value = -1 \/ 0 < value -> TaxFreeAfterPeriodField_deserialize value = Ok value) /\
  (value = 0 \/ value < -1 ->
   is_validation_error (TaxFreeAfterPeriodField_deserialize value)).
Proof.
  unfold TaxFreeAfterPeriodField_deserialize. split; intros H.
  - destruct (Z.ltb_spec value (-1)); [lia|].
    destruct (Z.eqb_spec value 0); [lia|done].
  - destruct (Z.ltb_spec value (-1)); [done|].
    destruct (Z.eqb_spec value 0); [done|lia].
Qed.

Lemma TaxFreeAfterPeriodField_deserialize_spec_witness :
  TaxFreeAfterPeriodField_deserialize (-1) = Ok (-1) /\
  TaxFreeAfterPeriodField_deserialize 365 = Ok 365 /\
  is_validation_error (TaxFreeAfterPeriodField_deserialize 0) /\
  is_validation_error (TaxFreeAfterPeriodField_deserialize (-2)).
Proof.
  split; [|split; [|split]].
  - apply (proj1 (TaxFreeAfterPeriodField_deserialize_spec (-1))). left. reflexivity.
  - apply (proj1 (TaxFreeAfterPeriodField_deserialize_spec 365)). right. reflexivity.
  - apply (proj2 (TaxFreeAfterPeriodField_deserialize_spec 0)). left. reflexivity.
  - apply (proj2 (TaxFreeAfterPeriodField_deserialize_spec (-2))). right. reflexivity.
Defined.

(** ** Route registration *)

Lemma setup_urls_ok_well_formed {Api RestAPI : Type}
    (add_resource : Api -> Resource -> string -> RestAPI -> string -> result Api)
    (rest_api : RestAPI) (urls : list url_tuple) (ctx ctx' : Api) :
  setup_urls add_resource ctx rest_api urls = Ok ctx' ->
  forallb well_formed_tuple urls = true.
Proof.
  revert ctx. induction urls as [|t urls IH]; intros ctx Hrun; [done|].
  simpl in Hrun. destruct t as [route c|route c e|r]; simpl in *.
  - destruct (add_resource ctx c route rest_api _) as [ctx1|] eqn:Hadd;
      simpl in Hrun; [eauto|discriminate].
  - destruct (add_resource ctx c route rest_api e) as [ctx1|] eqn:Hadd;
      simpl in Hrun; [eauto|discriminate].
  - discriminate.
Qed.


(** ** Price oracle lists *)

Section SetSize.
Context {A : Type} `{Countable A}.

Lemma size_list_to_set_le (l : list A) :
  (size (list_to_set l : gset A) <= length l)%nat.
Proof.
  induction l as [|x l IH]; simpl.
  - done.
  - rewrite size_union_alt, size_singleton.
    assert (list_to_set l ∖ {[x]} ⊆ (list_to_set l : gset A)) as Hsub.
    { intros y Hy. by apply elem_of_difference in Hy as [Hy _]. }
    apply subseteq_size in Hsub. lia.
Qed.

Lemma size_list_to_set_NoDup (l : list A) :
  size (list_to_set l : gset A) = length l <-> NoDup l.
Proof.
  split; [|apply size_list_to_set].
  induction l as [|x l IH]; intros Hsize; [constructor|].
  simpl in Hsize. destruct (decide (x ∈ l)) as [Hin|Hnotin].
  - exfalso.
    assert (({[x]} ∪ list_to_set l : gset A) = list_to_set l) as Heq.
    { apply subseteq_union_1_L, singleton_subseteq_l.
      by apply elem_of_list_to_set. }
    rewrite Heq in Hsize. pose proof (size_list_to_set_le l). lia.
  - rewrite size_union, size_singleton in Hsize.
    + constructor; [done|]. apply IH. lia.
    + apply disjoint_singleton_l. by rewrite elem_of_list_to_set.
Qed.

Lemma len_ne_set_size (l : list A) :
  (Nat.eqb (length l) 0
   || negb (Nat.eqb (length l) (size (list_to_set l : gset A))))%bool = false
  <-> l <> [] /\ NoDup l.
Proof.
  rewrite orb_false_iff, negb_false_iff, !Nat.eqb_neq, Nat.eqb_eq.
  rewrite <- size_list_to_set_NoDup. split.
  - intros [Hlen Hsz]. split; [|done]. by destruct l.
  - intros [Hne Hsz]. split; [|done]. by destruct l.
Qed.
End SetSize.

(** C9: a list of price oracles is rejected when it is empty or contains a
    repeated entry, with a message listing the given oracles and all supported
    oracle names, and accepted when it is non-empty without repetition; this
    holds for the current-price and for the historical-price validator. *)
Theorem validate_price_oracles_spec
    (C : Type) `{OracleEnum C} (Hi : Type) `{OracleEnum Hi}
    (cs : list C) (hs : list Hi) :
  (cs = [] \/ ~ NoDup cs ->
   _validate_current_price_oracles cs =
     Raise (ValidationError
              ("Invalid current price oracles in: " +:+ join ", " (enum_str <$> cs)
               +:+ ". Supported oracles are: "
               +:+ join ", " (enum_str <$> (enum_members : list C))
               +:+ ". Check there are no repeated ones.") None)) /\
  (cs <> [] /\ NoDup cs -> _validate_current_price_oracles cs = Ok tt) /\
  (hs = [] \/ ~ NoDup hs ->
   _validate_historical_price_oracles hs =
     Raise (ValidationError
              ("Invalid historical price oracles in: " +:+ join ", " (enum_str <$> hs)
               +:+ ". Supported oracles are: "
               +:+ join ", " (enum_str <$> (enum_members : list Hi))
               +:+ ". Check there are no repeated ones.") None)) /\
  (hs <> [] /\ NoDup hs -> _validate_historical_price_oracles hs = Ok tt).
Proof.
  unfold _validate_current_price_oracles, _validate_historical_price_oracles.
  repeat split; intros Hc.
  - destruct (_ || _)%bool eqn:Hb.
    + reflexivity.
    + apply len_ne_set_size in Hb as [Hne Hnd]. by destruct Hc.
  - apply len_ne_set_size in Hc. by rewrite Hc.
  - destruct (_ || _)%bool eqn:Hb.
    + reflexivity.
    + apply len_ne_set_size in Hb as [Hne Hnd]. by destruct Hc.
  - apply len_ne_set_size in Hc. by rewrite Hc.
Qed.

Lemma validate_price_oracles_spec_witness :
  _validate_current_price_oracles [OracleA; OracleB] = Ok tt /\
  _validate_current_price_oracles [OracleA; OracleA] =
    Raise (ValidationError
             ("Invalid current price oracles in: A, A. "
              +:+ "Supported oracles are: A, B. Check there are no repeated ones.")
             None) /\
  _validate_historical_price_oracles ([] : list SampleOracle) =
    Raise (ValidationError
             ("Invalid historical price oracles in: . "
              +:+ "Supported oracles are: A, B. Check there are no repeated ones.")
             None) /\
  _validate_historical_price_oracles [OracleB; OracleA] = Ok tt.
Proof.
  assert (Hab : NoDup [OracleA; OracleB]).
  { constructor; [|constructor; [|constructor]].
    - intros Hin. apply list_elem_of_In in Hin. destruct Hin as [Hin|[]]. discriminate Hin.
    - intros Hin. inversion Hin. }
  assert (Hba : NoDup [OracleB; OracleA]).
  { constructor; [|constructor; [|constructor]].
    - intros Hin. apply list_elem_of_In in Hin. destruct Hin as [Hin|[]]. discriminate Hin.
    - intros Hin. inversion Hin. }
  assert (Haa : ~ NoDup [OracleA; OracleA]).
  { intros Hnd. apply NoDup_cons in Hnd as [Hnotin _].
    apply Hnotin, list_elem_of_here. }
  split; [|split; [|split]].
  - apply (proj1 (proj2 (validate_price_oracles_spec
                           SampleOracle SampleOracle [OracleA; OracleB] []))).
    split; [discriminate|exact Hab].
  - exact (proj1 (validate_price_oracles_spec
                    SampleOracle SampleOracle [OracleA; OracleA] [])
                 (or_intror Haa)).
  - exact (proj1 (proj2 (proj2 (validate_price_oracles_spec
                                  SampleOracle SampleOracle [OracleA] [])))
                 (or_introl eq_refl)).
  - apply (proj2 (proj2 (proj2 (validate_price_oracles_spec
                                  SampleOracle SampleOracle [] [OracleB; OracleA])))).
    split; [discriminate|exact Hba].
Defined.

(** ** Decimals *)

Lemma app_str_cons (c : ascii) (a b : string) :
  String c a +:+ b = String c (a +:+ b).
Proof. reflexivity. Qed.

Lemma take_drop_str (n : nat) (s : string) : take_str n s +:+ drop_str n s = s.
Proof.
  revert s. induction n as [|n IH]; intros [|c s]; simpl; try done.
  rewrite app_str_cons. f_equal. apply IH.
Qed.

Lemma length_drop_str (n : nat) (s : string) :
  String.length (drop_str n s) = (String.length s - n)%nat.
Proof.
  revert s. induction n as [|n IH]; intros [|c s]; simpl; try done; lia.
Qed.

Lemma length_app_str (a b : string) :
  String.length (a +:+ b) = (String.length a + String.length b)%nat.
Proof.
  induction a as [|c a IH]; [done|].
  rewrite app_str_cons. simpl. f_equal. apply IH.
Qed.

Lemma length_zeros (k : nat) : String.length (zeros k) = k.
Proof. induction k as [|k IH]; simpl; [done|by rewrite IH]. Qed.

Lemma app_str_nil_r (a : string) : a +:+ "" = a.
Proof.
  induction a as [|c a IH]; [done|].
  rewrite app_str_cons. f_equal. apply IH.
Qed.

(** Digit strings, as recognised by the standard library's parser. *)

Lemma uint_of_string_cons_Some (c : ascii) (s : string) (d : uint) :
  NilEmpty.uint_of_string (String c s) = Some d ->
  is_Some (NilEmpty.uint_of_string s) /\
  Ascii.eqb c "." = false /\ Ascii.eqb c "-" = false /\ Ascii.eqb c "+" = false.
Proof.
  simpl. destruct (NilEmpty.uint_of_string s) as [d'|]; [|discriminate].
  intros Hc. split; [by eexists|].
  apply uint_of_char_spec in Hc.
  repeat (destruct Hc as [[-> _]|Hc]; [by repeat split|]).
  destruct Hc as [-> _]. by repeat split.
Qed.

Lemma uint_of_string_take (n : nat) (s : string) :
  is_Some (NilEmpty.uint_of_string s) ->
  is_Some (NilEmpty.uint_of_string (take_str n s)).
Proof.
  revert s. induction n as [|n IH]; intros [|c s] [d Hd]; simpl; try by eexists.
  pose proof (uint_of_string_cons_Some _ _ _ Hd) as [Hs _].
  destruct (IH s Hs) as [d' Hd']. rewrite Hd'.
  simpl in Hd. destruct (NilEmpty.uint_of_string s) as [d0|]; [|discriminate].
  apply uint_of_char_spec in Hd.
  repeat (destruct Hd as [[-> _]|Hd]; [by eexists|]).
  destruct Hd as [-> _]. by eexists.
Qed.

Lemma uint_of_string_zeros (k : nat) (s : string) (d : uint) :
  NilEmpty.uint_of_string s = Some d ->
  NilEmpty.uint_of_string (zeros k +:+ s) = Some (lead_zeros k d).
Proof.
  intros Hs. induction k as [|k IH]; [done|].
  change (zeros (S k) +:+ s) with (String "0" (zeros k +:+ s)).
  simpl. by rewrite IH.
Qed.

Lemma of_uint_lead_zeros (k : nat) (d : uint) :
  N.of_uint (lead_zeros k d) = N.of_uint d.
Proof. induction k as [|k IH]; simpl; [done|exact IH]. Qed.

Lemma split_point_digits_point (a f : string) :
  is_Some (NilEmpty.uint_of_string a) ->
  split_point (a +:+ "." +:+ f) = (a, Some f).
Proof.
  induction a as [|c a IH]; intros [d Hd]; [done|].
  apply uint_of_string_cons_Some in Hd as (Ha & Hc & _).
  rewrite app_str_cons. simpl. rewrite Hc. by rewrite (IH Ha).
Qed.

Lemma split_point_digits (a : string) :
  is_Some (NilEmpty.uint_of_string a) ->
  split_point a = (a, None).
Proof.
  induction a as [|c a IH]; intros [d Hd]; [done|].
  apply uint_of_string_cons_Some in Hd as (Ha & Hc & _).
  simpl. rewrite Hc. by rewrite (IH Ha).
Qed.

Lemma unsigned_str_shape (n : N) (scale : nat) :
  exists (c : ascii) (ip fp : string),
    String.length fp = scale /\
    unsigned_str n scale
      = String c ip +:+ (if Nat.eqb scale 0 then "" else "." +:+ fp) /\
    (exists d, NilEmpty.uint_of_string (String c ip +:+ fp) = Some d /\ N.of_uint d = n).
Proof.
  unfold unsigned_str.
  set (digits := NilEmpty.string_of_uint (N.to_uint n)).
  set (k := (S scale - String.length digits)%nat).
  set (padded := zeros k +:+ digits).
  set (m := (String.length padded - scale)%nat).
  assert (Hlen : (scale < String.length padded)%nat).
  { unfold padded. rewrite length_app_str, length_zeros. unfold k. lia. }
  assert (Hpad : NilEmpty.uint_of_string padded = Some (lead_zeros k (N.to_uint n))).
  { apply uint_of_string_zeros, NilEmpty.usu. }
  destruct (take_str m padded) as [|c ip] eqn:Htake.
  { exfalso. pose proof (take_drop_str m padded) as Htd.
    rewrite Htake in Htd.
    change ("" +:+ drop_str m padded) with (drop_str m padded) in Htd.
    apply (f_equal String.length) in Htd. rewrite length_drop_str in Htd.
    unfold m in Htd. lia. }
  exists c, ip, (drop_str m padded). split; [|split].
  - rewrite length_drop_str. unfold m. lia.
  - reflexivity.
  - rewrite <- Htake, take_drop_str. eexists. split; [exact Hpad|].
    rewrite of_uint_lead_zeros. apply DecimalN.Unsigned.of_to.
Qed.

Lemma parse_unsigned_str (n : N) (scale : nat) :
  parse_unsigned (unsigned_str n scale) = Some (n, scale).
Proof.
  destruct (unsigned_str_shape n scale) as (c & ip & fp & Hfp & -> & d & Hd & Hn).
  assert (Hip : is_Some (NilEmpty.uint_of_string (String c ip))).
  { pose proof (uint_of_string_take (S (String.length ip)) (String c ip +:+ fp)
                  (ex_intro _ d Hd)) as Ht.
    assert (take_str (S (String.length ip)) (String c ip +:+ fp) = String c ip) as Heq.
    { rewrite app_str_cons. simpl. f_equal. clear.
      induction ip as [|a ip IH]; simpl; [by destruct fp|].
      f_equal. exact IH. }
    by rewrite Heq in Ht. }
  unfold parse_unsigned. destruct (Nat.eqb_spec scale 0) as [Hz|Hnz].
  - rewrite app_str_nil_r. rewrite (split_point_digits _ Hip).
    assert (fp = "") as -> by (destruct fp; [done|simpl in Hfp; lia]).
    simpl default. rewrite app_str_nil_r in Hd |- *.
    rewrite Hd. simpl. by rewrite Hn, Hz.
  - rewrite (split_point_digits_point _ fp Hip).
    simpl default. rewrite app_str_cons in Hd |- *.
    rewrite Hd. simpl. by rewrite Hn, Hfp.
Qed.

Lemma unsigned_str_head (n : N) (scale : nat) :
  exists c r, unsigned_str n scale = String c r /\
              Ascii.eqb c "-" = false /\ Ascii.eqb c "+" = false.
Proof.
  destruct (unsigned_str_shape n scale) as (c & ip & fp & Hfp & -> & d & Hd & Hn).
  rewrite app_str_cons in Hd. apply uint_of_string_cons_Some in Hd as (_ & _ & Hm & Hp).
  rewrite app_str_cons. by eexists _, _.
Qed.

Lemma FVal_of_string_str (v : FVal) : FVal_of_string (FVal_str v) = Some v.
Proof.
  destruct v as [c k]. unfold FVal_str. simpl fval_coeff. simpl fval_scale.
  destruct (Z.ltb_spec c 0) as [Hneg|Hpos].
  - change ("-" +:+ unsigned_str (Z.abs_N c) k)
      with (String "-" (unsigned_str (Z.abs_N c) k)).
    simpl. rewrite parse_unsigned_str. simpl. do 2 f_equal. lia.
  - change ("" +:+ unsigned_str (Z.abs_N c) k) with (unsigned_str (Z.abs_N c) k).
    destruct (unsigned_str_head (Z.abs_N c) k) as (a & r & Heq & Hm & Hp).
    unfold FVal_of_string. rewrite Heq, Hm, Hp, <- Heq, parse_unsigned_str.
    simpl. do 2 f_equal. lia.
Qed.

(** The operations of the decimal model are exact: they agree with the
    arithmetic of the rationals the values denote. *)

Lemma pow10_pos (k : nat) : 0 < 10 ^ Z.of_nat k.
Proof. apply Z.pow_pos_nonneg; lia. Qed.

Lemma FVal_den (v : FVal) :
  Z.pos (Qden (FVal_value v)) = 10 ^ Z.of_nat (fval_scale v).
Proof. unfold FVal_value. simpl. apply Z2Pos.id, pow10_pos. Qed.

Lemma FVal_compare_value (a b : FVal) :
  FVal_compare a b = (FVal_value a ?= FVal_value b)%Q.
Proof.
  unfold Qcompare. rewrite !FVal_den. reflexivity.
Qed.

Lemma FVal_le_value (a b : FVal) :
  FVal_le a b = true <-> (FVal_value a <= FVal_value b)%Q.
Proof.
  unfold FVal_le. rewrite Qle_alt, FVal_compare_value.
  destruct (FVal_value a ?= FVal_value b)%Q; split; congruence.
Qed.

Lemma FVal_lt_value (a b : FVal) :
  FVal_lt a b = true <-> (FVal_value a < FVal_value b)%Q.
Proof.
  unfold FVal_lt. rewrite Qlt_alt, FVal_compare_value.
  destruct (FVal_value a ?= FVal_value b)%Q; split; congruence.
Qed.

Lemma FVal_gt_value (a b : FVal) :
  FVal_gt a b = true <-> (FVal_value b < FVal_value a)%Q.
Proof.
  unfold FVal_gt. rewrite Qgt_alt, FVal_compare_value.
  destruct (FVal_value a ?= FVal_value b)%Q; split; congruence.
Qed.

Lemma FVal_of_Z_value (n : Z) : FVal_value (FVal_of_Z n) = inject_Z n.
Proof. reflexivity. Qed.

Lemma FVal_add_value (a b : FVal) :
  (FVal_value (FVal_add a b) == FVal_value a + FVal_value b)%Q.
Proof.
  destruct a as [ca sa], b as [cb sb].
  unfold FVal_add, FVal_value, Qeq, Qplus. cbn [Qnum Qden fval_coeff fval_scale].
  rewrite Pos2Z.inj_mul, !Z2Pos.id by apply pow10_pos.
  set (s := Nat.max sa sb).
  assert (Ha : 10 ^ Z.of_nat s = 10 ^ Z.of_nat (s - sa) * 10 ^ Z.of_nat sa).
  { rewrite <- Z.pow_add_r by lia. f_equal. lia. }
  assert (Hb : 10 ^ Z.of_nat s = 10 ^ Z.of_nat (s - sb) * 10 ^ Z.of_nat sb).
  { rewrite <- Z.pow_add_r by lia. f_equal. lia. }
  transitivity
    (ca * 10 ^ Z.of_nat sb * (10 ^ Z.of_nat (s - sa) * 10 ^ Z.of_nat sa)
     + cb * 10 ^ Z.of_nat sa * (10 ^ Z.of_nat (s - sb) * 10 ^ Z.of_nat sb));
    [ring|rewrite <- Ha, <- Hb; ring].
Qed.

Lemma FVal_div_100_value (v : FVal) :
  (FVal_value (FVal_div_100 v) == FVal_value v / inject_Z 100)%Q.
Proof.
  destruct v as [c s].
  unfold FVal_div_100, FVal_value, Qeq, Qdiv, Qmult, Qinv, inject_Z.
  cbn [Qnum Qden fval_coeff fval_scale].
  rewrite Pos2Z.inj_mul, !Z2Pos.id by apply pow10_pos.
  rewrite Nat2Z.inj_add, Z.pow_add_r by lia.
  change (10 ^ Z.of_nat 2) with 100. change (Z.pos 100) with 100. ring.
Qed.

(** The sum of a list of rationals. *)
Lemma FVal_sum_value (l : list FVal) :
  (FVal_value (FVal_sum l) == fold_right Qplus 0 (FVal_value <$> l))%Q.
Proof.
  unfold FVal_sum.
  assert (Hgen : forall acc,
             (FVal_value (fold_left FVal_add l acc)
              == FVal_value acc + fold_right Qplus 0 (FVal_value <$> l))%Q).
  { induction l as [|x l IH]; intros acc; simpl.
    - ring.
    - rewrite IH, FVal_add_value. symmetry. apply Qplus_assoc. }
  rewrite Hgen. rewrite FVal_of_Z_value. unfold inject_Z. ring.
Qed.

(** ** Amount fields *)


Lemma FVal_of_string_minus (s : string) (v : FVal) :
  FVal_of_string (String "-" s) = Some v -> fval_coeff v <= 0.
Proof.
  simpl. destruct (parse_unsigned s) as [[n k]|]; simpl; [|discriminate].
  intros [= <-]. simpl. lia.
Qed.

Lemma FVal_le_ZERO (v : FVal) : FVal_le v ZERO = true <-> fval_coeff v <= 0.
Proof.
  unfold FVal_le, FVal_compare, ZERO, FVal_of_Z. simpl fval_coeff. simpl fval_scale.
  change (10 ^ Z.of_nat 0) with 1. rewrite Z.mul_1_r, Z.mul_0_l.
  destruct (Z.compare_spec (fval_coeff v) 0); split; intros; try done; lia.
Qed.

(** C8: the positive-amount field raises a validation error, with the
    message "Non-positive amount ... given", for every input that parses to a
    decimal less than or equal to zero, returns the parsed value for every
    input that parses to a strictly positive decimal, and raises a validation
    error for every string that starts with a minus sign. *)
Theorem PositiveAmountField_deserialize_spec (value : raw_amount) :
  (forall amount,
      AmountField_deserialize value = Ok amount ->
      (FVal_value amount <= 0)%Q ->
      PositiveAmountField_deserialize value =
        Raise (ValidationError
                 ("Non-positive amount " +:+ raw_str value
                  +:+ " given. Amount should be > 0") None)) /\
  (forall amount,
      AmountField_deserialize value = Ok amount ->
      (0 < FVal_value amount)%Q ->
      PositiveAmountField_deserialize value = Ok amount) /\
  (forall s,
      value = RawStr (String "-" s) ->
      is_validation_error (PositiveAmountField_deserialize value)).
Proof.
  unfold PositiveAmountField_deserialize. split; [|split].
  - intros amount -> Hle. simpl.
    change 0%Q with (FVal_value ZERO) in Hle. apply FVal_le_value in Hle.
    by rewrite Hle.
  - intros amount -> Hlt. simpl.
    change 0%Q with (FVal_value ZERO) in Hlt.
    destruct (FVal_le amount ZERO) eqn:Hle; [|done].
    apply FVal_le_value in Hle. exfalso. by apply (Qlt_not_le _ _ Hlt).
  - intros s ->.
    unfold AmountField_deserialize, deserialize_asset_amount, FVal_init.
    destruct (FVal_of_string (String "-" s)) as [v|] eqn:Hparse; [|done].
    apply FVal_of_string_minus in Hparse. apply FVal_le_ZERO in Hparse.
    simpl. by rewrite Hparse.
Qed.

Lemma PositiveAmountField_deserialize_spec_witness :
  PositiveAmountField_deserialize (RawStr "0") =
    Raise (ValidationError "Non-positive amount 0 given. Amount should be > 0" None) /\
  PositiveAmountField_deserialize (RawStr "0.00000001") =
    Ok {| fval_coeff := 1; fval_scale := 8 |} /\
  is_validation_error (PositiveAmountField_deserialize (RawStr "-1.5")).
Proof.
  split; [|split].
  - refine (proj1 (PositiveAmountField_deserialize_spec (RawStr "0"))
              {| fval_coeff := 0; fval_scale := 0 |} eq_refl _).
    vm_compute. discriminate.
  - refine (proj1 (proj2 (PositiveAmountField_deserialize_spec (RawStr "0.00000001")))
              {| fval_coeff := 1; fval_scale := 8 |} eq_refl _).
    vm_compute. reflexivity.
  - exact (proj2 (proj2 (PositiveAmountField_deserialize_spec (RawStr "-1.5")))
             "1.5" eq_refl).
Defined.

(** ** Percentages and underlying-token weights *)

Lemma FloatingPercentageField_deserialize_spec (value : string) :
  (FVal_of_string value = None ->
   is_validation_error (FloatingPercentageField_deserialize value)) /\
  (forall p, FVal_of_string value = Some p ->
     ((FVal_value p < 0)%Q ->
      FloatingPercentageField_deserialize value =
        Raise (ValidationError "Percentage field can not be negative" None)) /\
     ((100 < FVal_value p)%Q ->
      FloatingPercentageField_deserialize value =
        Raise (ValidationError "Percentage field can not be greater than 100" None)) /\
     ((0 <= FVal_value p)%Q -> (FVal_value p <= 100)%Q ->
      exists w, FloatingPercentageField_deserialize value = Ok w /\
                (FVal_value w == FVal_value p / 100)%Q /\
                (0 <= FVal_value w)%Q /\ (FVal_value w <= 1)%Q)).
Proof.
  unfold FloatingPercentageField_deserialize, FVal_init. split.
  - by intros ->.
  - intros p ->. split; [|split].
    + intros Hneg. change 0%Q with (FVal_value ZERO) in Hneg.
      apply FVal_lt_value in Hneg. by rewrite Hneg.
    + intros Hbig.
      destruct (FVal_lt p ZERO) eqn:Hlt.
      { apply FVal_lt_value in Hlt. change (FVal_value ZERO) with 0%Q in Hlt.
        exfalso. apply (Qlt_irrefl 0).
        apply Qlt_trans with (FVal_value p); [|done].
        by apply Qlt_trans with 100%Q. }
      change 100%Q with (FVal_value (FVal_of_Z 100)) in Hbig.
      apply FVal_gt_value in Hbig. by rewrite Hbig.
    + intros Hlo Hhi.
      destruct (FVal_lt p ZERO) eqn:Hlt.
      { apply FVal_lt_value in Hlt. exfalso. by apply (Qlt_not_le _ _ Hlt). }
      destruct (FVal_gt p (FVal_of_Z 100)) eqn:Hgt.
      { apply FVal_gt_value in Hgt. exfalso. by apply (Qlt_not_le _ _ Hgt). }
      eexists. split; [reflexivity|].
      pose proof (FVal_div_100_value p) as Hdiv.
      change (inject_Z 100) with 100%Q in Hdiv.
      split; [exact Hdiv|]. rewrite Hdiv. split.
      * apply Qle_shift_div_l; [reflexivity|]. by rewrite Qmult_0_l.
      * apply Qle_shift_div_r; [reflexivity|]. by rewrite Qmult_1_l.
Qed.

Lemma FVal_sum_weights (tokens : list UnderlyingTokenInfo) :
  (FVal_value (FVal_sum (ut_weight <$> tokens)) == weights_total tokens)%Q.
Proof. apply FVal_sum_value. Qed.

(** C6: the Ethereum token schema rejects an explicitly empty list of
    underlying tokens with a message suggesting a null value, rejects a
    non-empty list whose weights sum to more than 1, and accepts a non-empty
    list whose weights sum to at most 1 (in particular exactly 1).  A weight
    is the percentage parsed as an exact decimal and divided by 100:
    percentages below 0 or above 100 are rejected, so a stored weight lies
    between 0 and 1. *)
Theorem EthereumTokenSchema_weights_spec :
  (forall data,
      tok_underlying_tokens data = Some [] ->
      validate_ethereum_token_schema data =
        Raise (ValidationError
                 ("Gave an empty list for underlying tokens of " +:+ tok_address data
                  +:+ ". If you need to specify no underlying tokens give a null value")
                 None)) /\
  (forall data tokens,
      tok_underlying_tokens data = Some tokens -> tokens <> [] ->
      (1 < weights_total tokens)%Q ->
      validate_ethereum_token_schema data =
        Raise (ValidationError
                 ("The sum of underlying token weights for " +:+ tok_address data
                  +:+ " is "
                  +:+ FVal_str (FVal_mul_int (FVal_sum (ut_weight <$> tokens)) 100)
                  +:+ " and exceeds 100%") None)) /\
  (forall data tokens,
      tok_underlying_tokens data = Some tokens -> tokens <> [] ->
      (weights_total tokens <= 1)%Q ->
      validate_ethereum_token_schema data = Ok tt) /\
  (forall value p,
      FVal_of_string value = Some p ->
      ((FVal_value p < 0)%Q ->
       is_validation_error (FloatingPercentageField_deserialize value)) /\
      ((100 < FVal_value p)%Q ->
       is_validation_error (FloatingPercentageField_deserialize value)) /\
      ((0 <= FVal_value p)%Q -> (FVal_value p <= 100)%Q ->
       exists w, FloatingPercentageField_deserialize value = Ok w /\
                 (FVal_value w == FVal_value p / 100)%Q /\
                 (0 <= FVal_value w)%Q /\ (FVal_value w <= 1)%Q)).
Proof.
  split; [|split; [|split]].
  - intros data Hnil. unfold validate_ethereum_token_schema. by rewrite Hnil.
  - intros data tokens Hsome Hne Hsum.
    unfold validate_ethereum_token_schema. rewrite Hsome.
    destruct tokens as [|t tokens]; [done|].
    rewrite <- FVal_sum_weights in Hsum.
    change 1%Q with (FVal_value (FVal_of_Z 1)) in Hsum.
    apply FVal_gt_value in Hsum. by rewrite Hsum.
  - intros data tokens Hsome Hne Hsum.
    unfold validate_ethereum_token_schema. rewrite Hsome.
    destruct tokens as [|t tokens]; [done|].
    rewrite <- FVal_sum_weights in Hsum.
    destruct (FVal_gt _ _) eqn:Hgt; [|done].
    apply FVal_gt_value in Hgt. exfalso. by apply (Qlt_not_le _ _ Hgt).
  - intros value p Hp.
    destruct (FloatingPercentageField_deserialize_spec value) as [_ Hspec].
    destruct (Hspec p Hp) as (Hneg & Hbig & Hok).
    split; [|split; [|exact Hok]].
    + intros H. by rewrite (Hneg H).
    + intros H. by rewrite (Hbig H).
Qed.

Lemma EthereumTokenSchema_weights_spec_witness :
  let token (ws : option (list FVal)) :=
    {| tok_address := "0x6B175474E89094C44Da98b954EedeAC495271d0F";
       tok_decimals := 18; tok_name := "Pool"; tok_symbol := "PL";
       tok_started := None; tok_coingecko := None; tok_cryptocompare := None;
       tok_underlying_tokens :=
         fmap (M:=list)
           (fun w => {| ut_address := "0xdAC17F958D2ee523a2206206994597C13D831ec7";
                        ut_weight := w |}) <$> ws |} in
  FloatingPercentageField_deserialize "60" = Ok {| fval_coeff := 60; fval_scale := 2 |} /\
  FloatingPercentageField_deserialize "40" = Ok {| fval_coeff := 40; fval_scale := 2 |} /\
  is_validation_error (FloatingPercentageField_deserialize "100.5") /\
  validate_ethereum_token_schema
    (token (Some [{| fval_coeff := 60; fval_scale := 2 |};
                  {| fval_coeff := 40; fval_scale := 2 |}])) = Ok tt /\
  validate_ethereum_token_schema
    (token (Some [{| fval_coeff := 60; fval_scale := 2 |};
                  {| fval_coeff := 60; fval_scale := 2 |}])) =
    Raise (ValidationError
             ("The sum of underlying token weights for "
              +:+ "0x6B175474E89094C44Da98b954EedeAC495271d0F is 120.00 and exceeds 100%")
             None) /\
  validate_ethereum_token_schema (token (Some [])) =
    Raise (ValidationError
             ("Gave an empty list for underlying tokens of "
              +:+ "0x6B175474E89094C44Da98b954EedeAC495271d0F. "
              +:+ "If you need to specify no underlying tokens give a null value")
             None).
Proof.
  intros token.
  destruct EthereumTokenSchema_weights_spec as (Hempty & Hover & Hfit & Hpct).
  split; [reflexivity|split; [reflexivity|split; [|split; [|split]]]].
  - refine (proj1 (proj2 (Hpct "100.5" {| fval_coeff := 1005; fval_scale := 1 |} eq_refl)) _).
    vm_compute. reflexivity.
  - refine (Hfit (token (Some [{| fval_coeff := 60; fval_scale := 2 |};
                               {| fval_coeff := 40; fval_scale := 2 |}]))
              _ eq_refl _ _); [discriminate|].
    vm_compute. discriminate.
  - refine (Hover (token (Some [{| fval_coeff := 60; fval_scale := 2 |};
                                {| fval_coeff := 60; fval_scale := 2 |}]))
              _ eq_refl _ _); [discriminate|].
    vm_compute. reflexivity.
  - exact (Hempty (token (Some [])) eq_refl).
Defined.

(** ** Blockchain account schemas *)

Section DedupLoop.
Variable norm : string -> result string.

Lemma dedup_loop_ok (l : list string) (seen : gset string) :
  dedup_loop norm l seen = Ok tt ->
  exists ns, Forall2 (fun a n => norm a = Ok n) l ns /\ NoDup ns /\
             (forall n, n ∈ ns -> n ∉ seen).
Proof.
  revert seen. induction l as [|a l IH]; intros seen Hrun.
  - exists []. repeat split; [constructor|constructor|]. intros n Hn. inversion Hn.
  - simpl in Hrun. destruct (norm a) as [n|e] eqn:Hn; [|discriminate].
    simpl in Hrun. destruct (decide (n ∈ seen)) as [Hin|Hnotin]; [discriminate|].
    destruct (IH _ Hrun) as (ns & Hall & Hnd & Hfresh).
    exists (n :: ns). split; [by constructor|split].
    + constructor; [|done]. intros Hmem. apply (Hfresh n Hmem).
      apply elem_of_union_l. by apply elem_of_singleton.
    + intros m Hm. apply elem_of_cons in Hm as [->|Hm]; [done|].
      intros Hseen. apply (Hfresh m Hm). by apply elem_of_union_r.
Qed.

Lemma dedup_loop_repeated (l ns : list string) (seen : gset string) :
  Forall2 (fun a n => norm a = Ok n) l ns ->
  ~ NoDup ns \/ (exists m, m ∈ ns /\ m ∈ seen) ->
  exists n, dedup_loop norm l seen = Raise (duplicate_address_error n) /\
            n ∈ ns /\ (n ∈ seen \/ repeated n ns).
Proof.
  intros Hall. revert seen.
  induction Hall as [|a n l ns Hn Hall IH]; intros seen Hbad.
  - exfalso. destruct Hbad as [Hnd|(m & Hm & _)]; [apply Hnd; constructor|inversion Hm].
  - simpl. rewrite Hn. simpl.
    destruct (decide (n ∈ seen)) as [Hin|Hnotin].
    + exists n. split; [done|split; [apply list_elem_of_here|by left]].
    + assert (Hbad' : ~ NoDup ns \/ exists m, m ∈ ns /\ m ∈ ({[n]} ∪ seen : gset string)).
      { destruct Hbad as [Hnd|(m & Hm & Hseen)].
        - destruct (decide (n ∈ ns)) as [Hmem|Hnmem].
          + right. exists n. split; [done|].
            apply elem_of_union_l. by apply elem_of_singleton.
          + left. intros Hnd'. apply Hnd. by constructor.
        - right. exists m. apply elem_of_cons in Hm as [->|Hm]; [done|].
          split; [done|]. by apply elem_of_union_r. }
      destruct (IH _ Hbad') as (n0 & Hrun & Hmem & Hwhy).
      exists n0. split; [done|split; [by apply list_elem_of_further|]].
      destruct Hwhy as [Hseen|(i & j & Hij & Hi & Hj)].
      * apply elem_of_union in Hseen as [Heq|Hseen]; [|by left].
        apply elem_of_singleton in Heq. subst n0. right.
        apply list_elem_of_lookup in Hmem as [j Hj].
        exists 0%nat, (S j). split; [lia|done].
      * right. exists (S i), (S j). split; [lia|done].
Qed.

Lemma dedup_loop_same_twice (l : list string) (i j : nat) (a b : string) :
  (i < j)%nat -> l !! i = Some a -> l !! j = Some b ->
  norm a = norm b ->
  raises (dedup_loop norm l ∅).
Proof.
  intros Hij Hi Hj Hab.
  destruct (dedup_loop norm l ∅) as [[]|e] eqn:Hrun; [|done].
  destruct (dedup_loop_ok _ _ Hrun) as (ns & Hall & Hnd & _).
  destruct (Forall2_lookup_l _ _ _ _ _ Hall Hi) as (n1 & Hn1 & Hnorm1).
  destruct (Forall2_lookup_l _ _ _ _ _ Hall Hj) as (n2 & Hn2 & Hnorm2).
  rewrite Hab, Hnorm2 in Hnorm1. injection Hnorm1 as <-.
  pose proof (NoDup_lookup _ _ _ _ Hnd Hn1 Hn2). lia.
Qed.

Lemma dedup_loop_validation_error (l : list string) (seen : gset string) :
  (forall a, match norm a with
             | Raise (ValidationError _ _) | Ok _ => True
             | Raise _ => False
             end) ->
  raises (dedup_loop norm l seen) -> is_validation_error (dedup_loop norm l seen).
Proof.
  intros Hnorm. revert seen. induction l as [|a l IH]; intros seen; [done|].
  simpl. specialize (Hnorm a). destruct (norm a) as [n|e]; simpl.
  - destruct (decide (n ∈ seen)); [done|apply IH].
  - by destruct e.
Qed.
End DedupLoop.

Section AccountValidation.
Variable to_checksum_address : string -> option string.
Variable is_valid_btc_address is_valid_kusama_address : string -> bool.

Lemma normalized_address_validation_error (chain : SupportedBlockchain) (a : string) :
  match normalized_address to_checksum_address is_valid_btc_address
          is_valid_kusama_address chain a with
  | Raise (ValidationError _ _) | Ok _ => True
  | Raise _ => False
  end.
Proof.
  destruct chain; simpl.
  - destruct (negb _); [destruct (to_checksum_address a)|]; done.
  - by destruct (_ && _)%bool.
  - by destruct (_ && _)%bool.
Qed.

Lemma _validate_blockchain_account_schemas_loop {A : Type}
    (data : AccountsData A) (address_getter : A -> string) :
  _validate_blockchain_account_schemas to_checksum_address is_valid_btc_address
    is_valid_kusama_address data address_getter
  = dedup_loop
      (normalized_address to_checksum_address is_valid_btc_address
         is_valid_kusama_address (blockchain data))
      (address_getter <$> accounts data) ∅.
Proof.
  unfold _validate_blockchain_account_schemas.
  generalize (∅ : gset string) as seen.
  destruct (blockchain data); induction (accounts data) as [|x l IH];
    intros seen; try reflexivity; simpl.
  - destruct (negb _).
    + destruct (to_checksum_address (address_getter x)) as [n|]; [|done].
      simpl. destruct (decide (n ∈ seen)); [done|apply IH].
    + simpl. destruct (decide (address_getter x ∈ seen)); [done|apply IH].
  - destruct (_ && _)%bool; [done|]. simpl.
    destruct (decide (address_getter x ∈ seen)); [done|apply IH].
  - destruct (_ && _)%bool; [done|]. simpl.
    destruct (decide (address_getter x ∈ seen)); [done|apply IH].
Qed.
End AccountValidation.

(** C3 (as stated) fails: with a repeated address in the request, the error
    raised can be the format error of a malformed address that the loop meets
    first, which does not name the repeated address. *)
Lemma validate_accounts_format_error_before_duplicate :
  let genesis := "1A1zP1eP5QGefi2DMPTfTL5SLmv7DivfNa" in
  let data := {| blockchain := BITCOIN; accounts := ["xyz"; genesis; genesis];
                 async_query := false |} in
  let validate :=
    _validate_blockchain_account_schemas
      (fun _ => None) (String.eqb genesis) (fun _ => false) data (fun x => x) in
  repeated genesis (accounts data) /\
  validate =
    Raise (ValidationError "Given value xyz is not a valid bitcoin address"
             (Some "address")) /\
  validate <> Raise (duplicate_address_error genesis).
Proof.
  split; [|split].
  - exists 1%nat, 2%nat. split; [lia|split; reflexivity].
  - reflexivity.
  - discriminate.
Qed.

(** C3 (amended): for every blockchain-accounts add/edit/delete request,
    if two entries of the account list are the same address after per-chain
    normalization (e.g. Ethereum checksumming), whole-schema validation
    raises a validation error; when every address of the request passes the
    per-chain format check that error names an address that occurs twice
    after normalization.  A request whose validation raises is rejected at
    the validation stage: the post-load transformation is not run. *)
Theorem validate_blockchain_accounts_duplicates
    (to_checksum_address : string -> option string)
    (is_valid_btc_address is_valid_kusama_address : string -> bool) :
  let validate {A : Type} (data : AccountsData A) (getter : A -> string) :=
    _validate_blockchain_account_schemas to_checksum_address
      is_valid_btc_address is_valid_kusama_address data getter in
  let norm (chain : SupportedBlockchain) :=
    normalized_address to_checksum_address is_valid_btc_address
      is_valid_kusama_address chain in
  (forall (A : Type) (data : AccountsData A) (getter : A -> string),
      (forall i j a b,
          (i < j)%nat ->
          (getter <$> accounts data) !! i = Some a ->
          (getter <$> accounts data) !! j = Some b ->
          norm (blockchain data) a = norm (blockchain data) b ->
          is_validation_error (validate data getter)) /\
      (forall ns,
          Forall2 (fun a n => norm (blockchain data) a = Ok n)
                  (getter <$> accounts data) ns ->
          ~ NoDup ns ->
          exists n, validate data getter = Raise (duplicate_address_error n) /\
                    repeated n ns)) /\
  (forall ens_lookup scriptpubkey_to_btc_address get_kusama_address_from_public_key
          (data : AccountsData string) e,
      validate data (fun x => x) = Raise e ->
      BlockchainAccountsDeleteSchema_load to_checksum_address is_valid_btc_address
        is_valid_kusama_address ens_lookup scriptpubkey_to_btc_address
        get_kusama_address_from_public_key data = ValidationFailed e) /\
  (forall ens_lookup scriptpubkey_to_btc_address get_kusama_address_from_public_key
          (data : AccountsData BlockchainAccountData) e,
      validate data acc_address = Raise e ->
      BlockchainAccountsPatchSchema_load to_checksum_address is_valid_btc_address
        is_valid_kusama_address ens_lookup scriptpubkey_to_btc_address
        get_kusama_address_from_public_key data = ValidationFailed e).
Proof.
  intros validate norm. split; [|split].
  - intros A data getter. unfold validate.
    rewrite _validate_blockchain_account_schemas_loop. fold (norm (blockchain data)).
    split.
    + intros i j a b Hij Hi Hj Hab.
      apply dedup_loop_validation_error.
      * intros x. apply normalized_address_validation_error.
      * by apply (dedup_loop_same_twice _ _ i j a b).
    + intros ns Hall Hnd.
      destruct (dedup_loop_repeated _ _ _ ∅ Hall (or_introl Hnd))
        as (n & Hrun & _ & [Hseen|Hrep]).
      * by apply not_elem_of_empty in Hseen.
      * by exists n.
  - intros ens spk ksm data e Hval.
    unfold BlockchainAccountsDeleteSchema_load, load_with.
    unfold validate in Hval. by rewrite Hval.
  - intros ens spk ksm data e Hval.
    unfold BlockchainAccountsPatchSchema_load, load_with.
    unfold validate in Hval. by rewrite Hval.
Qed.

Lemma validate_blockchain_accounts_duplicates_witness :
  let genesis := "1A1zP1eP5QGefi2DMPTfTL5SLmv7DivfNa" in
  let data := {| blockchain := BITCOIN; accounts := [genesis; genesis];
                 async_query := false |} in
  BlockchainAccountsDeleteSchema_load
    (fun _ => None) (String.eqb genesis) (fun _ => false)
    (fun _ _ => None) (fun _ => None) (fun _ => None) data
  = ValidationFailed (duplicate_address_error genesis) /\
  is_validation_error
    (_validate_blockchain_account_schemas
       (fun _ => None) (String.eqb genesis) (fun _ => false) data (fun x => x)).
Proof.
  intros genesis data.
  pose proof (validate_blockchain_accounts_duplicates
                (fun _ => None) (String.eqb genesis) (fun _ => false)) as [Hdup [Hdel _]].
  split.
  - exact (Hdel (fun _ _ => None) (fun _ => None) (fun _ => None) data
             (duplicate_address_error genesis) eq_refl).
  - exact (proj1 (Hdup string data (fun x => x))
             0%nat 1%nat genesis genesis
             ltac:(lia) eq_refl eq_refl eq_refl).
Defined.

(** ** Error handlers *)


(** ** Request parsing errors *)

(** C10: a validation error raised while parsing a request reaches the
    shared handler with its messages keyed by location; for every error whose
    messages are not the empty mapping the handler aborts with status 400 Bad
    Request and a body carrying a null result and a message taken from the
    error: the JSON text of the messages under the first key of a mapping,
    the comma-joined texts of a list, or the text of the error itself. *)
Theorem handle_request_parsing_error_spec {JSON : Type}
    (json_dumps : JSON -> string) (err : ParsingError JSON) :
  err_messages err <> MessagesDict [] ->
  exists msg,
    handle_request_parsing_error json_dumps err
    = Raise (HTTPException BAD_REQUEST {| res_result := None; res_message := msg |}) /\
    status_code BAD_REQUEST = 400 /\
    msg = match err_messages err with
          | MessagesDict ((_, messages) :: _) => json_dumps messages
          | MessagesList items => join "," items
          | _ => err_str err
          end.
Proof.
  intros Hne. unfold handle_request_parsing_error.
  destruct (err_messages err) as [[|[key value] items]|items|]; [done|..];
    eexists; (split; [reflexivity|split; reflexivity]).
Qed.

Lemma handle_request_parsing_error_spec_witness :
  let err := {| err_str := "{'json': {'amount': ['Non-positive amount 0 given. Amount should be > 0']}}";
                err_messages :=
                  MessagesDict
                    [("json", "{'amount': ['Non-positive amount 0 given. Amount should be > 0']}")] |} in
  exists msg,
    handle_request_parsing_error (fun text : string => text) err
    = Raise (HTTPException BAD_REQUEST {| res_result := None; res_message := msg |}) /\
    status_code BAD_REQUEST = 400 /\
    msg = "{'amount': ['Non-positive amount 0 given. Amount should be > 0']}".
Proof.
  intros err.
  exact (handle_request_parsing_error_spec (fun text : string => text) err
           ltac:(discriminate)).
Defined.

(** ** Route registration, continued *)

Lemma setup_urls_concat {Api RestAPI : Type}
    (add_resource : Api -> Resource -> string -> RestAPI -> string -> result Api)
    (rest_api : RestAPI) (urls1 urls2 : list url_tuple) (ctx : Api) :
  setup_urls add_resource ctx rest_api (urls1 ++ urls2)
  = match setup_urls add_resource ctx rest_api urls1 with
    | Ok ctx' => setup_urls add_resource ctx' rest_api urls2
    | Raise e => Raise e
    end.
Proof.
  revert ctx. induction urls1 as [|t urls1 IH]; intros ctx; [reflexivity|].
  destruct t as [route c|route c e|r]; simpl.
  - destruct (add_resource ctx c route rest_api _) as [ctx1|e1]; simpl; [apply IH|done].
  - destruct (add_resource ctx c route rest_api e) as [ctx1|e1]; simpl; [apply IH|done].
  - reflexivity.
Qed.

(** X1: registering the concatenation of two route tables is registering
    the first and then, in the context it produced, the second; a failure in
    the first part is the failure of the whole. *)
Theorem setup_urls_app {Api RestAPI : Type}
    (add_resource : Api -> Resource -> string -> RestAPI -> string -> result Api)
    (rest_api : RestAPI) (urls1 urls2 : list url_tuple) (ctx : Api) :
  setup_urls add_resource ctx rest_api (urls1 ++ urls2)
  = match setup_urls add_resource ctx rest_api urls1 with
    | Ok ctx' => setup_urls add_resource ctx' rest_api urls2
    | Raise e => Raise e
    end.
Proof. apply setup_urls_concat. Qed.

(** X2: [setup_urls] fails fast on an entry with neither two nor three
    elements: once the entries before it are registered it raises the
    [ValueError] naming that entry, and the entries after it play no role (an
    earlier registration failure is raised instead). *)
Theorem setup_urls_malformed_entry {Api RestAPI : Type}
    (add_resource : Api -> Resource -> string -> RestAPI -> string -> result Api)
    (rest_api : RestAPI) (before after : list url_tuple) (repr : string) (ctx : Api) :
  setup_urls add_resource ctx rest_api (before ++ TupleOther repr :: after)
  = match setup_urls add_resource ctx rest_api before with
    | Ok _ => Raise (ValueError ("Invalid URL format: " +:+ repr))
    | Raise e => Raise e
    end.
Proof.
  rewrite setup_urls_concat.
  destruct (setup_urls add_resource ctx rest_api before); reflexivity.
Qed.

(** X3: the shipped table [URLS_V1] has 77 entries, each of two or three
    elements, whose path patterns are pairwise distinct and all start with a
    slash. *)
Theorem URLS_V1_routes :
  length URLS_V1 = 77%nat /\
  forallb well_formed_tuple URLS_V1 = true /\
  NoDup (omap route_of URLS_V1) /\
  Forall (fun route => startswith route "/" = true) (omap route_of URLS_V1).
Proof.
  split; [reflexivity|split; [reflexivity|split]].
  - apply (bool_decide_unpack _). vm_compute. exact I.
  - apply Forall_forall. intros route Hin.
    apply list_elem_of_In in Hin. vm_compute in Hin.
    repeat (destruct Hin as [<-|Hin]; [reflexivity|]). destruct Hin.
Qed.

(** ** Settings schema *)

(** X4: the settings validator accepts a mapping exactly when
    [active_modules] is [None] or every listed module is a key of
    [AVAILABLE_MODULES_MAP]; otherwise the error it raises, on the field
    [active_modules], names the first listed module that is not a key. *)
Theorem validate_settings_schema_spec (available : list string) (data : SettingsData) :
  (validate_settings_schema available data = Ok tt <->
   forall modules, active_modules data = Some modules ->
                   Forall (fun m => m ∈ available) modules) /\
  (forall known module rest,
      active_modules data = Some (known ++ module :: rest) ->
      Forall (fun m => m ∈ available) known ->
      module ∉ available ->
      validate_settings_schema available data =
        Raise (ValidationError (module +:+ " is not a valid module")
                 (Some "active_modules"))).
Proof.
  assert (Hloop : forall modules,
             check_active_modules available modules = Ok tt <->
             Forall (fun m => m ∈ available) modules).
  { induction modules as [|m modules IH]; simpl.
    - split; [constructor|done].
    - destruct (in_tuple m available) eqn:Hm; simpl.
      + apply in_tuple_spec in Hm. rewrite IH. split.
        * by constructor.
        * by inversion 1.
      + apply in_tuple_false in Hm. split; [done|]. by inversion 1. }
  unfold validate_settings_schema. split.
  - destruct (active_modules data) as [modules|].
    + rewrite Hloop. split; [by intros H ? [= <-]|intros H; by apply H].
    + split; [by intros _ ? [=]|done].
  - intros known module rest -> Hknown Hbad.
    induction Hknown as [|m known Hm _ IH]; simpl.
    + apply in_tuple_false in Hbad. by rewrite Hbad.
    + apply in_tuple_spec in Hm. by rewrite Hm.
Qed.

Lemma validate_settings_schema_spec_witness :
  validate_settings_schema ["uniswap"; "aave"; "compound"]
    {| active_modules := Some ["aave"; "makerdao"; "nosuch"] |}
  = Raise (ValidationError "makerdao is not a valid module" (Some "active_modules")) /\
  validate_settings_schema ["uniswap"; "aave"; "compound"]
    {| active_modules := Some ["aave"; "uniswap"] |} = Ok tt.
Proof.
  split.
  - refine (proj2 (validate_settings_schema_spec ["uniswap"; "aave"; "compound"]
                     {| active_modules := Some ["aave"; "makerdao"; "nosuch"] |})
              ["aave"] "makerdao" ["nosuch"] eq_refl _ _).
    + repeat constructor.
    + intros Hin. apply list_elem_of_In in Hin. simpl in Hin.
      repeat (destruct Hin as [Hin|Hin]; [discriminate Hin|]). exact Hin.
  - apply (proj1 (validate_settings_schema_spec ["uniswap"; "aave"; "compound"]
                    {| active_modules := Some ["aave"; "uniswap"] |})).
    intros modules [= <-]. repeat constructor.
Defined.

(** ** File fields *)

Lemma drop_str_app_length (p s : string) : drop_str (String.length p) (p +:+ s) = s.
Proof. induction p as [|c p IH]; [done|exact IH]. Qed.

Lemma endswith_spec (s suffix : string) :
  endswith s suffix = true <-> exists p, s = p +:+ suffix.
Proof.
  unfold endswith. rewrite andb_true_iff, Nat.leb_le, String.eqb_eq. split.
  - intros [_ Hdrop]. remember (String.length s - String.length suffix)%nat as n.
    exists (take_str n s). rewrite <- Hdrop. symmetry. apply take_drop_str.
  - intros [p ->]. rewrite length_app_str. split; [lia|].
    replace (String.length p + String.length suffix - String.length suffix)%nat
      with (String.length p) by lia.
    apply drop_str_app_length.
Qed.

(** X5: an uploaded file is accepted, and returned as it is, exactly when
    the field has no extension list, or the upload has no file name (or an
    empty one), or the file name ends in one of the allowed extensions; the
    file system is not consulted. *)
Theorem FileField_deserialize_upload
    (path_exists path_is_file : string -> bool) (path_suffix path_str : string -> string)
    (allowed_extensions : option (list string)) (filename : option string) :
  let outcome := FileField_deserialize path_exists path_is_file path_suffix path_str
                   allowed_extensions (FileStorage filename) in
  (outcome = Ok (FileStorage filename) <->
   allowed_extensions = None \/ filename = None \/ filename = Some "" \/
   exists extensions name extension p,
     allowed_extensions = Some extensions /\ filename = Some name /\
     extension ∈ extensions /\ name = p +:+ extension) /\
  (outcome <> Ok (FileStorage filename) -> is_validation_error outcome).
Proof.
  simpl. destruct allowed_extensions as [extensions|]; [|split; [tauto|done]].
  destruct filename as [[|c name]|];
    [split; [tauto|done]| |split; [tauto|done]].
  destruct (existsb (endswith (String c name)) extensions) eqn:Hany; simpl.
  - split; [|done]. split; [intros _|done].
    apply existsb_exists in Hany as (x & Hin & Hx).
    apply endswith_spec in Hx as [p Hp].
    right. right. right. exists extensions, (String c name), x, p.
    repeat split; [by apply list_elem_of_In|done].
  - split; [|done]. split; [done|].
    intros [H|[H|[H|(exts & nm & x & p & [= <-] & [= <-] & Hin & Hp)]]];
      try discriminate.
    assert (existsb (endswith (String c name)) extensions = true) as Htrue.
    { apply existsb_exists. exists x. split; [by apply list_elem_of_In|].
      apply endswith_spec. by exists p. }
    congruence.
Qed.

(** X6: a path given as a string is accepted exactly when it exists, is a
    regular file and, if the field has an extension list, its suffix is equal
    to one of the extensions; a path that does not exist is reported as such
    whatever its suffix, and one that is not a regular file likewise. *)
Theorem FileField_deserialize_path
    (path_exists path_is_file : string -> bool) (path_suffix path_str : string -> string)
    (allowed_extensions : option (list string)) (value : string) :
  let outcome := FileField_deserialize path_exists path_is_file path_suffix path_str
                   allowed_extensions (FileString value) in
  (outcome = Ok (FileString value) <->
   path_exists value = true /\ path_is_file value = true /\
   forall extensions, allowed_extensions = Some extensions ->
                      path_suffix value ∈ extensions) /\
  (path_exists value = false ->
   outcome = Raise (ValidationError ("Given path " +:+ value +:+ " does not exist") None)) /\
  (path_exists value = true -> path_is_file value = false ->
   outcome = Raise (ValidationError ("Given path " +:+ value +:+ " is not a file") None)).
Proof.
  simpl. destruct (path_exists value); simpl;
    [|split; [split; [done|by intros [? _]]|done]].
  destruct (path_is_file value); simpl;
    [|split; [split; [done|by intros (_ & ? & _)]|done]].
  split; [|done].
  destruct allowed_extensions as [extensions|]; [|split; [by intros _|done]].
  destruct (existsb (String.eqb (path_suffix value)) extensions) eqn:Hany; simpl.
  - split; [intros _|done]. repeat split. intros exts [= <-].
    apply existsb_exists in Hany as (x & Hin & Hx). apply String.eqb_eq in Hx.
    rewrite Hx. by apply list_elem_of_In.
  - split; [done|]. intros (_ & _ & Hin). specialize (Hin extensions eq_refl).
    assert (existsb (String.eqb (path_suffix value)) extensions = true) as Htrue.
    { apply existsb_exists. exists (path_suffix value).
      split; [by apply list_elem_of_In|apply String.eqb_refl]. }
    congruence.
Qed.

Lemma FileField_deserialize_upload_witness :
  FileField_deserialize (fun _ => false) (fun _ => false) (fun _ => "") (fun p => p)
    (Some [".csv"]) (FileStorage (Some "trades.csv"))
  = Ok (FileStorage (Some "trades.csv")) /\
  FileField_deserialize (fun _ => false) (fun _ => false) (fun _ => "") (fun p => p)
    (Some [".csv"]) (FileStorage None)
  = Ok (FileStorage None).
Proof.
  split.
  - apply (proj1 (FileField_deserialize_upload (fun _ => false) (fun _ => false)
                    (fun _ => "") (fun p => p) (Some [".csv"]) (Some "trades.csv"))).
    right. right. right. exists [".csv"], "trades.csv", ".csv", "trades".
    repeat split. apply list_elem_of_here.
  - apply (proj1 (FileField_deserialize_upload (fun _ => false) (fun _ => false)
                    (fun _ => "") (fun p => p) (Some [".csv"]) None)).
    right. left. reflexivity.
Defined.

Lemma FileField_deserialize_path_witness :
  let on_disk := String.eqb "/data/trades.csv" in
  FileField_deserialize on_disk on_disk (fun _ => ".csv") (fun p => p)
    (Some [".csv"]) (FileString "/data/trades.csv")
  = Ok (FileString "/data/trades.csv") /\
  FileField_deserialize on_disk on_disk (fun _ => ".csv") (fun p => p)
    (Some [".csv"]) (FileString "/data/missing.csv")
  = Raise (ValidationError "Given path /data/missing.csv does not exist" None).
Proof.
  intros on_disk. split.
  - apply (proj1 (FileField_deserialize_path on_disk on_disk (fun _ => ".csv")
                    (fun p => p) (Some [".csv"]) "/data/trades.csv")).
    repeat split. intros extensions [= <-]. apply list_elem_of_here.
  - exact (proj1 (proj2 (FileField_deserialize_path on_disk on_disk (fun _ => ".csv")
                           (fun p => p) (Some [".csv"]) "/data/missing.csv"))
             eq_refl).
Defined.

(** ** Delimited lists *)

Lemma startswith_spec (s prefix : string) :
  startswith s prefix = true <-> s = prefix +:+ drop_str (String.length prefix) s.
Proof.
  revert s. induction prefix as [|p prefix IH]; intros s; [done|].
  destruct s as [|c s]; simpl; [done|].
  rewrite andb_true_iff, Ascii.eqb_eq, IH, app_str_cons. split.
  - intros [-> <-]. reflexivity.
  - intros [= -> Hs]. by split.
Qed.

Lemma startswith_app (s t prefix : string) :
  startswith s prefix = true -> startswith (s +:+ t) prefix = true.
Proof.
  revert s. induction prefix as [|p prefix IH]; intros s; [done|].
  destruct s as [|c s]; simpl; [done|].
  rewrite !andb_true_iff. intros [Hc Hs].
  split; [done|by apply IH].
Qed.

Lemma split_skip_nonempty (sep s : string) (skip : nat) : split_skip sep s skip <> [].
Proof.
  revert skip. induction s as [|c s IH]; intros skip; simpl; [done|].
  destruct skip; [|apply IH].
  destruct (startswith (String c s) sep); [done|].
  by destruct (split_skip sep s 0).
Qed.

Lemma join_cons (sep x : string) (l : list string) :
  l <> [] -> join sep (x :: l) = x +:+ sep +:+ join sep l.
Proof. by destruct l. Qed.

Lemma join_cons_head (sep : string) (c : ascii) (x : string) (l : list string) :
  join sep (String c x :: l) = String c (join sep (x :: l)).
Proof. by destruct l. Qed.

Lemma join_split_skip (sep s : string) (skip : nat) :
  sep <> "" -> join sep (split_skip sep s skip) = drop_str skip s.
Proof.
  intros Hsep. revert skip. induction s as [|c s IH]; intros skip.
  - by destruct skip.
  - destruct skip as [|k]; [|apply IH]. cbn [split_skip drop_str].
    destruct (startswith (String c s) sep) eqn:Hstart.
    + rewrite join_cons by apply split_skip_nonempty. rewrite IH.
      apply startswith_spec in Hstart.
      destruct sep as [|a sep]; [done|].
      simpl in Hstart |- *. rewrite Nat.sub_0_r. symmetry. exact Hstart.
    + pose proof (split_skip_nonempty sep s 0) as Hne.
      specialize (IH 0%nat). destruct (split_skip sep s 0) as [|piece pieces]; [done|].
      rewrite join_cons_head, IH. reflexivity.
Qed.

Lemma occurs_nil (sep : string) : sep <> "" -> occurs sep "" = false.
Proof. by destruct sep. Qed.

Lemma split_skip_free (sep s : string) (skip : nat) :
  sep <> "" -> Forall (fun piece => occurs sep piece = false) (split_skip sep s skip).
Proof.
  intros Hsep. revert skip. induction s as [|c s IH]; intros skip.
  - constructor; [by apply occurs_nil|constructor].
  - destruct skip as [|k]; [|apply IH]. cbn [split_skip].
    destruct (startswith (String c s) sep) eqn:Hstart.
    + constructor; [by apply occurs_nil|apply IH].
    + pose proof (split_skip_nonempty sep s 0) as Hne.
      pose proof (join_split_skip sep s 0 Hsep) as Hjoin.
      specialize (IH 0%nat).
      destruct (split_skip sep s 0) as [|piece pieces]; [done|].
      apply Forall_cons in IH as [Hpiece Hpieces].
      constructor; [|done].
      cbn [occurs]. rewrite Hpiece, orb_false_r.
      destruct (startswith (String c piece) sep) eqn:Hhead; [|done].
      assert (exists tail, s = piece +:+ tail) as [tail ->].
      { simpl in Hjoin. rewrite <- Hjoin.
        destruct pieces; [exists ""; by rewrite app_str_nil_r|by eexists]. }
      apply (startswith_app _ tail) in Hhead. rewrite app_str_cons in Hhead.
      congruence.
Qed.

Lemma split_skip_absent (sep s : string) :
  occurs sep s = false -> split_skip sep s 0 = [s].
Proof.
  induction s as [|c s IH]; [done|].
  cbn [occurs split_skip]. intros Hocc.
  apply orb_false_iff in Hocc as [Hstart Hrest].
  by rewrite Hstart, (IH Hrest).
Qed.

Lemma split_skip_piece_then_char (d : ascii) (piece rest : string) :
  occurs (String d "") piece = false ->
  split_skip (String d "") (piece +:+ String d rest) 0
  = piece :: split_skip (String d "") rest 0.
Proof.
  induction piece as [|c piece IH]; intros Hfree.
  - change ("" +:+ String d rest) with (String d rest). cbn [split_skip startswith].
    by rewrite Ascii.eqb_refl.
  - cbn [occurs] in Hfree. apply orb_false_iff in Hfree as [Hstart Hrest].
    rewrite app_str_cons. cbn [split_skip startswith] in Hstart |- *.
    rewrite andb_true_r in Hstart |- *. by rewrite Hstart, (IH Hrest).
Qed.

(** X7: [split], the cut of a delimited string, never gives the empty
    list; its pieces joined by the separator are the string again; no piece
    contains the separator; and a string without the separator is its own
    single piece. *)
Theorem split_spec (sep s : string) :
  sep <> "" ->
  split sep s <> [] /\
  join sep (split sep s) = s /\
  Forall (fun piece => occurs sep piece = false) (split sep s) /\
  (occurs sep s = false -> split sep s = [s]).
Proof.
  intros Hsep. unfold split. split; [apply split_skip_nonempty|].
  split; [by apply join_split_skip|].
  split; [by apply split_skip_free|apply split_skip_absent].
Qed.

Lemma split_spec_witness :
  split "," "USD,EUR,,JPY" = ["USD"; "EUR"; ""; "JPY"] /\
  join "," (split "," "USD,EUR,,JPY") = "USD,EUR,,JPY" /\
  join ", " (split ", " "") = "".
Proof.
  split; [reflexivity|]. split.
  - exact (proj1 (proj2 (split_spec "," "USD,EUR,,JPY" ltac:(discriminate)))).
  - exact (proj1 (proj2 (split_spec ", " "" ltac:(discriminate)))).
Defined.

(** X8: with a one-character delimiter, a [DelimitedOrNormalList] treats
    the items joined by the delimiter exactly as the list of the items,
    provided the list is not empty and no item contains the delimiter; a
    list-like value reaches the inner list field unchanged, and a value that
    is neither text nor list-like raises the field's "invalid" error. *)
Theorem DelimitedOrNormalList_deserialize_spec {B : Type}
    (d : ascii) (invalid_error : exn)
    (List_deserialize : list string -> result (list B)) (items : list string) :
  let deserialize :=
    DelimitedOrNormalList_deserialize (String d "") invalid_error List_deserialize in
  deserialize (DelimitedItems items) = List_deserialize items /\
  deserialize DelimitedOther = Raise invalid_error /\
  (items <> [] ->
   Forall (fun item => occurs (String d "") item = false) items ->
   deserialize (DelimitedStr (join (String d "") items)) = deserialize (DelimitedItems items)).
Proof.
  simpl. split; [reflexivity|split; [reflexivity|]].
  intros Hne Hfree. unfold DelimitedOrNormalList_deserialize. simpl. f_equal.
  unfold split. clear List_deserialize invalid_error.
  induction Hfree as [|x l Hx Hl IH]; [done|].
  destruct l as [|y l]; [by apply split_skip_absent|].
  rewrite join_cons by done.
  change (x +:+ String d "" +:+ join (String d "") (y :: l))
    with (x +:+ String d (join (String d "") (y :: l))).
  rewrite split_skip_piece_then_char by done. f_equal. by apply IH.
Qed.

Lemma DelimitedOrNormalList_deserialize_spec_witness :
  DelimitedOrNormalList_deserialize "," (ValidationError "Not a valid list." None)
    (fun l : list string => Ok l) (DelimitedStr "BTC,ETH,EUR")
  = DelimitedOrNormalList_deserialize "," (ValidationError "Not a valid list." None)
      (fun l : list string => Ok l) (DelimitedItems ["BTC"; "ETH"; "EUR"]).
Proof.
  refine (proj2 (proj2 (DelimitedOrNormalList_deserialize_spec
                          ","%char (ValidationError "Not a valid list." None)
                          (fun l : list string => Ok l) ["BTC"; "ETH"; "EUR"])) _ _).
  - discriminate.
  - repeat constructor.
Defined.

(** ** Blockchain account schemas, continued *)

Lemma mapM_result_Ok {A B : Type} (f : A -> result B) (l : list A) (l' : list B) :
  mapM f l = Ok l' <-> Forall2 (fun a b => f a = Ok b) l l'.
Proof.
  revert l'. induction l as [|a l IH]; intros l'; simpl.
  - split; [intros [= <-]; constructor|by inversion 1].
  - destruct (f a) as [b|e] eqn:Hfa; simpl.
    + destruct (mapM f l) as [bs|e] eqn:Hrest; simpl.
      * split.
        -- intros [= <-]. constructor; [done|]. by apply IH.
        -- inversion 1 as [|? b' ? bs' Hb Hbs]; subst.
           apply IH in Hbs. injection Hbs as <-.
           rewrite Hfa in Hb. injection Hb as <-. reflexivity.
      * split; [done|]. inversion 1 as [|? b' ? bs' Hb Hbs]; subst.
        apply IH in Hbs. discriminate.
    + split; [done|]. inversion 1; congruence.
Qed.

Lemma mapM_result_first_failure {A B : Type} (f : A -> result B)
    (before : list A) (a : A) (after : list A) (e : exn) :
  Forall (fun x => exists b, f x = Ok b) before -> f a = Raise e ->
  mapM f (before ++ a :: after) = Raise e.
Proof.
  intros Hbefore Ha. induction Hbefore as [|x before [b Hx] _ IH]; simpl.
  - by rewrite Ha.
  - by rewrite Hx, IH.
Qed.

Lemma dedup_loop_complete (norm : string -> result string)
    (l ns : list string) (seen : gset string) :
  Forall2 (fun a n => norm a = Ok n) l ns -> NoDup ns ->
  (forall n, n ∈ ns -> n ∉ seen) ->
  dedup_loop norm l seen = Ok tt.
Proof.
  intros Hall. revert seen. induction Hall as [|a n l ns Hn Hall IH]; intros seen Hnd Hfresh.
  - reflexivity.
  - apply NoDup_cons in Hnd as [Hnotin Hnd]. simpl. rewrite Hn. simpl.
    destruct (decide (n ∈ seen)) as [Hin|_].
    + exfalso. apply (Hfresh n); [apply list_elem_of_here|done].
    + apply IH; [done|]. intros m Hm Hseen.
      apply elem_of_union in Hseen as [Heq|Hseen].
      * apply elem_of_singleton in Heq. by subst.
      * apply (Hfresh m); [by apply list_elem_of_further|done].
Qed.

Lemma _validate_blockchain_account_schemas_Ok
    (to_checksum_address : string -> option string)
    (is_valid_btc_address is_valid_kusama_address : string -> bool)
    (A : Type) (data : AccountsData A) (getter : A -> string) :
  _validate_blockchain_account_schemas to_checksum_address is_valid_btc_address
    is_valid_kusama_address data getter = Ok tt
  <-> exists ns,
        Forall2 (fun a n =>
                   normalized_address to_checksum_address is_valid_btc_address
                     is_valid_kusama_address (blockchain data) a = Ok n)
                (getter <$> accounts data) ns /\
        NoDup ns.
Proof.
  rewrite _validate_blockchain_account_schemas_loop. split.
  - intros Hrun. destruct (dedup_loop_ok _ _ _ Hrun) as (ns & Hall & Hnd & _).
    by exists ns.
  - intros (ns & Hall & Hnd). apply (dedup_loop_complete _ _ ns); [done..|].
    intros n _. apply not_elem_of_empty.
Qed.

(** X9: the whole-schema validator of the blockchain-accounts requests
    accepts a request exactly when every address passes the per-chain format
    check and the normalized addresses are pairwise distinct. *)
Theorem validate_blockchain_accounts_accepts
    (to_checksum_address : string -> option string)
    (is_valid_btc_address is_valid_kusama_address : string -> bool)
    (A : Type) (data : AccountsData A) (getter : A -> string) :
  _validate_blockchain_account_schemas to_checksum_address is_valid_btc_address
    is_valid_kusama_address data getter = Ok tt
  <-> exists ns,
        Forall2 (fun a n =>
                   normalized_address to_checksum_address is_valid_btc_address
                     is_valid_kusama_address (blockchain data) a = Ok n)
                (getter <$> accounts data) ns /\
        NoDup ns.
Proof. apply _validate_blockchain_account_schemas_Ok. Qed.

Lemma validate_blockchain_accounts_accepts_witness :
  _validate_blockchain_account_schemas
    (fun a => if String.eqb (lower a) "0x6b175474e89094c44da98b954eedeac495271d0f"
              then Some "0x6B175474E89094C44Da98b954EedeAC495271d0F" else None)
    (fun _ => false) (fun _ => false)
    {| blockchain := ETHEREUM;
       accounts := ["0x6b175474e89094c44da98b954eedeac495271d0f"; "rotki.eth"];
       async_query := false |}
    (fun x => x)
  = Ok tt.
Proof.
  apply (proj2 (validate_blockchain_accounts_accepts _ _ _ string _ _)).
  exists ["0x6B175474E89094C44Da98b954EedeAC495271d0F"; "rotki.eth"]. split.
  - repeat constructor.
  - apply (bool_decide_unpack _). vm_compute. exact I.
Defined.

Section AccountsLoad.
Variable to_checksum_address : string -> option string.
Variable is_valid_btc_address is_valid_kusama_address : string -> bool.
Variable ens_lookup : string -> SupportedBlockchain -> option string.
Variable scriptpubkey_to_btc_address : string -> option string.
Variable get_kusama_address_from_public_key : string -> option string.

Let validate {A : Type} (data : AccountsData A) (getter : A -> string) :=
  _validate_blockchain_account_schemas to_checksum_address is_valid_btc_address
    is_valid_kusama_address data getter.
Let transform (chain : SupportedBlockchain) :=
  transform_address to_checksum_address ens_lookup scriptpubkey_to_btc_address
    get_kusama_address_from_public_key chain.
Let load_delete :=
  BlockchainAccountsDeleteSchema_load to_checksum_address is_valid_btc_address
    is_valid_kusama_address ens_lookup scriptpubkey_to_btc_address
    get_kusama_address_from_public_key.
Let load_patch :=
  BlockchainAccountsPatchSchema_load to_checksum_address is_valid_btc_address
    is_valid_kusama_address ens_lookup scriptpubkey_to_btc_address
    get_kusama_address_from_public_key.

Lemma load_delete_Loaded (data data' : AccountsData string) :
  load_delete data = Loaded data' <->
  validate data (fun x => x) = Ok tt /\
  blockchain data' = blockchain data /\
  async_query data' = async_query data /\
  Forall2 (fun a a' => transform (blockchain data) a = Ok a')
          (accounts data) (accounts data').
Proof.
  unfold load_delete, BlockchainAccountsDeleteSchema_load, load_with,
    BlockchainAccountsDeleteSchema_transform_data.
  fold (validate data (fun x => x)). fold (transform (blockchain data)).
  destruct (validate data (fun x => x)) as [[]|e];
    [|split; [done|by intros [? _]]].
  destruct (mapM (transform (blockchain data)) (accounts data)) as [accounts'|e]
    eqn:Hmap; simpl.
  - apply mapM_result_Ok in Hmap. split.
    + intros [= <-]. by repeat split.
    + intros (_ & Hchain & Hasync & Hall). apply mapM_result_Ok in Hmap, Hall.
      rewrite Hall in Hmap. injection Hmap as <-.
      destruct data'; simpl in *. by subst.
  - split; [done|]. intros (_ & _ & _ & Hall).
    apply mapM_result_Ok in Hall. congruence.
Qed.

(** X10: a delete request is loaded all or nothing.  It loads exactly when
    it passes validation and every account transforms; the loaded request
    keeps the chain and the [async_query] flag and holds, in order, the
    transformed address of every account.  If validation passes and some
    account fails to transform, the load fails in the post-load stage with the
    error of the first such account. *)
Theorem BlockchainAccountsDeleteSchema_load_spec (data : AccountsData string) :
  (forall data',
      load_delete data = Loaded data' <->
      validate data (fun x => x) = Ok tt /\
      blockchain data' = blockchain data /\
      async_query data' = async_query data /\
      Forall2 (fun a a' => transform (blockchain data) a = Ok a')
              (accounts data) (accounts data')) /\
  (forall before a after e,
      accounts data = before ++ a :: after ->
      validate data (fun x => x) = Ok tt ->
      Forall (fun x => exists x', transform (blockchain data) x = Ok x') before ->
      transform (blockchain data) a = Raise e ->
      load_delete data = PostLoadFailed e).
Proof.
  split; [intros data'; apply load_delete_Loaded|].
  unfold load_delete, BlockchainAccountsDeleteSchema_load, load_with,
    BlockchainAccountsDeleteSchema_transform_data.
  fold (validate data (fun x => x)). fold (transform (blockchain data)).
  intros before a after e Haccounts -> Hbefore Ha.
  by rewrite Haccounts, (mapM_result_first_failure _ _ _ _ e Hbefore Ha).
Qed.

(** X11: an add or edit request that loads keeps, for every account and in
    order, its label and its tags, and replaces its address by the
    transformed one; the chain and the [async_query] flag are kept. *)
Theorem BlockchainAccountsPatchSchema_load_spec
    (data data' : AccountsData BlockchainAccountData) :
  load_patch data = Loaded data' ->
  validate data acc_address = Ok tt /\
  blockchain data' = blockchain data /\
  async_query data' = async_query data /\
  Forall2 (fun account account' =>
             transform (blockchain data) (acc_address account)
               = Ok (acc_address account') /\
             acc_label account' = acc_label account /\
             acc_tags account' = acc_tags account)
          (accounts data) (accounts data').
Proof.
  unfold load_patch, BlockchainAccountsPatchSchema_load, load_with,
    BlockchainAccountsPatchSchema_transform_data.
  fold (validate data acc_address). fold (transform (blockchain data)).
  destruct (validate data acc_address) as [[]|e]; [|done].
  match goal with |- context [mapM ?f ?l] => destruct (mapM f l) as [accounts'|e] eqn:Hmap end;
    simpl; [|done].
  intros [= <-]. repeat split. simpl.
  apply mapM_result_Ok in Hmap.
  eapply Forall2_impl; [exact Hmap|].
  intros account account' Hacc. simpl in Hacc.
  destruct (transform (blockchain data) (acc_address account)) as [address|e];
    simpl in Hacc; [|done].
  by injection Hacc as <-.
Qed.

(** X12: for a delete request without [.eth] names that passes validation,
    the resolver plays no role: the request loads, and the loaded accounts are
    the normalized addresses that validation compared, which are pairwise
    distinct. *)
Theorem BlockchainAccountsDeleteSchema_load_no_ens (data : AccountsData string) :
  Forall (fun a => endswith a ".eth" = false) (accounts data) ->
  validate data (fun x => x) = Ok tt ->
  exists data',
    load_delete data = Loaded data' /\
    blockchain data' = blockchain data /\
    NoDup (accounts data') /\
    Forall2 (fun a n =>
               normalized_address to_checksum_address is_valid_btc_address
                 is_valid_kusama_address (blockchain data) a = Ok n)
            (accounts data) (accounts data').
Proof.
  intros Hplain Hvalid.
  pose proof Hvalid as Hok. unfold validate in Hok.
  apply _validate_blockchain_account_schemas_Ok in Hok as (ns & Hall & Hnd).
  rewrite list_fmap_id in Hall.
  exists {| blockchain := blockchain data; accounts := ns;
            async_query := async_query data |}.
  split; [|by repeat split].
  apply load_delete_Loaded.
  split; [done|]. repeat split. simpl.
  clear Hvalid Hnd. induction Hall as [|a n l ns Hn Hall IH]; [constructor|].
  apply Forall_cons in Hplain as [Ha Hplain]. constructor; [|by apply IH].
  unfold transform, transform_address. clear IH Hall Hplain.
  destruct (blockchain data); simpl in Hn |- *.
  - unfold _transform_eth_address. rewrite Ha in Hn. simpl in Hn.
    by destruct (to_checksum_address a).
  - unfold _transform_btc_address. rewrite Ha in Hn |- *. simpl in Hn |- *.
    by destruct (is_valid_btc_address a).
  - unfold _transform_ksm_address. rewrite Ha in Hn |- *. simpl in Hn |- *.
    by destruct (is_valid_kusama_address a).
Qed.
End AccountsLoad.

Lemma BlockchainAccountsDeleteSchema_load_spec_witness :
  BlockchainAccountsDeleteSchema_load
    (fun _ => None) (fun _ => false) (fun _ => false)
    (fun _ _ => None) (fun _ => None) (fun _ => None)
    {| blockchain := BITCOIN; accounts := ["nosuch.eth"]; async_query := false |}
  = PostLoadFailed
      (ValidationError "Given ENS address nosuch.eth could not be resolved for Bitcoin"
         (Some "address")).
Proof.
  exact (proj2 (BlockchainAccountsDeleteSchema_load_spec
                  (fun _ => None) (fun _ => false) (fun _ => false)
                  (fun _ _ => None) (fun _ => None) (fun _ => None)
                  {| blockchain := BITCOIN; accounts := ["nosuch.eth"];
                     async_query := false |})
           [] "nosuch.eth" [] _ eq_refl eq_refl (List.Forall_nil _) eq_refl).
Defined.

Lemma BlockchainAccountsPatchSchema_load_spec_witness :
  let genesis := "1A1zP1eP5QGefi2DMPTfTL5SLmv7DivfNa" in
  let data := {| blockchain := BITCOIN;
                 accounts := [{| acc_address := genesis; acc_label := Some "cold";
                                 acc_tags := Some ["public"] |}];
                 async_query := true |} in
  Forall2 (fun account account' =>
             transform_address (fun _ => None) (fun _ _ => None) (fun _ => None)
               (fun _ => None) BITCOIN (acc_address account)
               = Ok (acc_address account') /\
             acc_label account' = acc_label account /\
             acc_tags account' = acc_tags account)
          (accounts data) (accounts data).
Proof.
  intros genesis data.
  exact (proj2 (proj2 (proj2
           (BlockchainAccountsPatchSchema_load_spec
              (fun _ => None) (String.eqb genesis) (fun _ => false)
              (fun _ _ => None) (fun _ => None) (fun _ => None)
              data data eq_refl)))).
Defined.

Lemma BlockchainAccountsDeleteSchema_load_no_ens_witness :
  let genesis := "1A1zP1eP5QGefi2DMPTfTL5SLmv7DivfNa" in
  let data := {| blockchain := BITCOIN; accounts := [genesis]; async_query := false |} in
  exists data',
    BlockchainAccountsDeleteSchema_load
      (fun _ => None) (String.eqb genesis) (fun _ => false)
      (fun _ _ => None) (fun _ => None) (fun _ => None) data = Loaded data' /\
    blockchain data' = BITCOIN /\
    NoDup (accounts data') /\
    Forall2 (fun a n =>
               normalized_address (fun _ => None) (String.eqb genesis)
                 (fun _ => false) BITCOIN a = Ok n)
            (accounts data) (accounts data').
Proof.
  intros genesis data.
  apply (BlockchainAccountsDeleteSchema_load_no_ens
           (fun _ => None) (String.eqb genesis) (fun _ => false)
           (fun _ _ => None) (fun _ => None) (fun _ => None) data).
  - repeat constructor.
  - reflexivity.
Defined.

(** ** Percentages and tokens, continued *)

(** X13: the percentage field does not invert its own serialization.  It
    stores the fraction and serializes the fraction as it is, so
    deserializing the serialized form of a stored value between 0 and 100
    divides it by 100 once more; only zero comes back unchanged. *)
Theorem FloatingPercentageField_serialize_deserialize (w : FVal) :
  (0 <= FVal_value w)%Q -> (FVal_value w <= 100)%Q ->
  FloatingPercentageField_deserialize (FloatingPercentageField_serialize w)
    = Ok (FVal_div_100 w) /\
  (FVal_value (FVal_div_100 w) == FVal_value w / 100)%Q /\
  ((0 < FVal_value w)%Q -> ~ (FVal_value (FVal_div_100 w) == FVal_value w)%Q).
Proof.
  intros Hlo Hhi.
  destruct (FloatingPercentageField_deserialize_spec (FloatingPercentageField_serialize w))
    as [_ Hspec].
  destruct (Hspec w (FVal_of_string_str w)) as (_ & _ & Hok).
  destruct (Hok Hlo Hhi) as (w' & Hrun & _).
  assert (w' = FVal_div_100 w) as ->.
  { unfold FloatingPercentageField_deserialize, FloatingPercentageField_serialize,
      FVal_init in Hrun.
    rewrite FVal_of_string_str in Hrun.
    destruct (FVal_lt w ZERO); [discriminate|].
    destruct (FVal_gt w (FVal_of_Z 100)); [discriminate|]. by injection Hrun. }
  split; [exact Hrun|]. pose proof (FVal_div_100_value w) as Hdiv.
  change (inject_Z 100) with 100%Q in Hdiv. split; [exact Hdiv|].
  intros Hpos Heq. rewrite Hdiv in Heq.
  assert (FVal_value w / 100 < FVal_value w)%Q as Hlt.
  { apply Qlt_shift_div_r; [reflexivity|].
    rewrite <- (Qmult_1_r (FVal_value w)) at 1.
    apply (proj2 (Qmult_lt_l 1 100 (FVal_value w) Hpos)). reflexivity. }
  rewrite Heq in Hlt. by apply Qlt_irrefl in Hlt.
Qed.

Lemma FloatingPercentageField_serialize_deserialize_witness :
  FloatingPercentageField_deserialize "50" = Ok {| fval_coeff := 50; fval_scale := 2 |} /\
  FloatingPercentageField_serialize {| fval_coeff := 50; fval_scale := 2 |} = "0.50" /\
  FloatingPercentageField_deserialize
    (FloatingPercentageField_serialize {| fval_coeff := 50; fval_scale := 2 |})
  = Ok {| fval_coeff := 50; fval_scale := 4 |}.
Proof.
  split; [reflexivity|split; [reflexivity|]].
  refine (proj1 (FloatingPercentageField_serialize_deserialize
                   {| fval_coeff := 50; fval_scale := 2 |} _ _)).
  - vm_compute. discriminate.
  - vm_compute. discriminate.
Defined.

(** X14: every token that [EthereumTokenSchema] loads carries the address
    of the request and either no underlying tokens, or a non-empty list of
    them, in the order and with the addresses and weights of the request,
    whose weights sum to at most 1. *)
Theorem EthereumTokenSchema_load_spec (data : EthereumTokenData)
    (token : CustomEthereumToken) :
  EthereumTokenSchema_load data = Loaded token ->
  cet_address token = tok_address data /\
  match cet_underlying_tokens token with
  | None => tok_underlying_tokens data = None
  | Some underlying =>
      exists entries,
        tok_underlying_tokens data = Some entries /\
        entries <> [] /\
        address <$> underlying = ut_address <$> entries /\
        weight <$> underlying = ut_weight <$> entries /\
        (weights_total entries <= 1)%Q
  end.
Proof.
  unfold EthereumTokenSchema_load.
  destruct (validate_ethereum_token_schema data) as [[]|e] eqn:Hvalid; [|done].
  intros [= <-]. split; [reflexivity|]. simpl.
  unfold validate_ethereum_token_schema in Hvalid.
  destruct (tok_underlying_tokens data) as [entries|]; [|reflexivity].
  exists entries. split; [reflexivity|].
  destruct entries as [|entry entries]; [discriminate|].
  split; [done|]. rewrite <- !list_fmap_compose. split; [reflexivity|split; [reflexivity|]].
  destruct (FVal_gt _ _) eqn:Hgt; [discriminate|].
  rewrite <- FVal_sum_weights. apply Qnot_lt_le. intros Hlt.
  change 1%Q with (FVal_value (FVal_of_Z 1)) in Hlt.
  apply FVal_gt_value in Hlt. congruence.
Qed.

Lemma EthereumTokenSchema_load_spec_witness :
  let data :=
    {| tok_address := "0x6B175474E89094C44Da98b954EedeAC495271d0F";
       tok_decimals := 18; tok_name := "Pool"; tok_symbol := "PL";
       tok_started := None; tok_coingecko := None; tok_cryptocompare := None;
       tok_underlying_tokens :=
         Some [{| ut_address := "0xdAC17F958D2ee523a2206206994597C13D831ec7";
                  ut_weight := {| fval_coeff := 100; fval_scale := 2 |} |}] |} in
  exists entries,
    tok_underlying_tokens data = Some entries /\ entries <> [] /\
    (weights_total entries <= 1)%Q.
Proof.
  intros data.
  destruct (proj2 (EthereumTokenSchema_load_spec data
                     (EthereumTokenSchema_transform_data data) eq_refl))
    as (entries & Hsome & Hne & _ & _ & Hsum).
  by exists entries.
Defined.

(** ** Price oracle lists, continued *)

(** X15: when [enum_members] lists every member of the enumeration, a list
    with more entries than there are oracles is always rejected by both
    validators: it must repeat one. *)
Theorem validate_price_oracles_too_long
    (C : Type) `{OracleEnum C} (Hi : Type) `{OracleEnum Hi}
    (cs : list C) (hs : list Hi) :
  ((forall o : C, o ∈ (enum_members : list C)) ->
   (length (enum_members : list C) < length cs)%nat ->
   is_validation_error (_validate_current_price_oracles cs)) /\
  ((forall o : Hi, o ∈ (enum_members : list Hi)) ->
   (length (enum_members : list Hi) < length hs)%nat ->
   is_validation_error (_validate_historical_price_oracles hs)).
Proof.
  assert (Hpigeon : forall (A : Type) (l members : list A),
             (forall o, o ∈ members) -> (length members < length l)%nat -> ~ NoDup l).
  { intros A l members Hall Hlen Hnd.
    assert (l ⊆+ members) as Hsub by (apply NoDup_submseteq; [done|by intros]).
    apply submseteq_length in Hsub. lia. }
  assert (Hcond : forall (A : Type) `{Countable A} (l : list A),
             ~ NoDup l ->
             (Nat.eqb (length l) 0
              || negb (Nat.eqb (length l) (size (list_to_set l : gset A))))%bool = true).
  { intros A ? ? l Hnd. apply not_false_iff_true. intros Hfalse.
    apply len_ne_set_size in Hfalse as [_ Hok]. by apply Hnd. }
  split; intros Hall Hlen.
  - unfold _validate_current_price_oracles.
    by rewrite (Hcond _ _ _ _ (Hpigeon _ _ _ Hall Hlen)).
  - unfold _validate_historical_price_oracles.
    by rewrite (Hcond _ _ _ _ (Hpigeon _ _ _ Hall Hlen)).
Qed.

Lemma validate_price_oracles_too_long_witness :
  is_validation_error (_validate_current_price_oracles [OracleB; OracleA; OracleB]) /\
  is_validation_error (_validate_historical_price_oracles [OracleA; OracleB; OracleA]).
Proof.
  assert (Hall : forall o : SampleOracle, o ∈ (enum_members : list SampleOracle)).
  { intros []; apply list_elem_of_In; simpl; auto. }
  split.
  - apply (proj1 (validate_price_oracles_too_long SampleOracle SampleOracle
                    [OracleB; OracleA; OracleB] [])); [exact Hall|simpl; lia].
  - apply (proj2 (validate_price_oracles_too_long SampleOracle SampleOracle
                    [] [OracleA; OracleB; OracleA])); [exact Hall|simpl; lia].
Defined.

(** ** Amount field round trip *)

Lemma uint_of_char_digit (c : ascii) (d : uint) (acc : N) :
  match uint_of_char c (Some d), digit_of c with
  | Some d', Some k => horner_uint acc d' = horner_uint (10 * acc + k)%N d
  | None, None => True
  | _, _ => False
  end.
Proof.
  destruct c as [[] [] [] [] [] [] [] []]; exact I || reflexivity.
Qed.

Lemma digits_value_uint (s : string) (acc : N) :
  digits_value acc s = horner_uint acc <$> NilEmpty.uint_of_string s.
Proof.
  revert acc. induction s as [|c s IH]; intros acc; [reflexivity|].
  cbn [digits_value NilEmpty.uint_of_string].
  destruct (NilEmpty.uint_of_string s) as [d|] eqn:Hs.
  - pose proof (uint_of_char_digit c d acc) as Hc.
    destruct (uint_of_char c (Some d)) as [d'|], (digit_of c) as [k|];
      try done; simpl.
    by rewrite IH, Hc.
  - destruct (digit_of c) as [k|]; simpl; [by rewrite IH|].
    by destruct c as [[] [] [] [] [] [] [] []].
Qed.

Lemma of_uint_acc_horner (d : uint) (p : positive) :
  N.pos (Pos.of_uint_acc d p) = horner_uint (N.pos p) d.
Proof.
  revert p. induction d; intros p; simpl; [reflexivity|..];
    rewrite IHd; f_equal; lia.
Qed.

Lemma of_uint_horner (d : uint) : N.of_uint d = horner_uint 0 d.
Proof.
  unfold N.of_uint. induction d; simpl; [reflexivity|exact IHd|..];
    apply of_uint_acc_horner.
Qed.

Lemma digits_value_app (a b : string) (acc : N) :
  digits_value acc (a +:+ b) = digits_value acc a ≫= fun x => digits_value x b.
Proof.
  revert acc. induction a as [|c a IH]; intros acc; [reflexivity|].
  rewrite app_str_cons. cbn [digits_value].
  destruct (digit_of c) as [k|]; simpl; [apply IH|reflexivity].
Qed.

Lemma fraction_digits_value (s : string) (coeff : N) (count : nat) :
  fraction_digits s coeff count
  = (fun x => (x, (count + String.length s)%nat)) <$> digits_value coeff s.
Proof.
  revert coeff count. induction s as [|c s IH]; intros coeff count; simpl.
  - by rewrite Nat.add_0_r.
  - destruct (digit_of c) as [k|]; simpl; [|reflexivity].
    rewrite IH. by rewrite Nat.add_succ_r.
Qed.

Lemma integer_digits_split (s : string) (coeff : N) :
  integer_digits s coeff
  = let '(intpart, frac) := split_point s in
    digits_value coeff intpart ≫= fun x =>
    (fun y => (y, String.length (default "" frac)))
      <$> digits_value x (default "" frac).
Proof.
  revert coeff. induction s as [|c s IH]; intros coeff; [reflexivity|].
  cbn [integer_digits split_point].
  destruct (Ascii.eqb c ".") eqn:Hpoint.
  - simpl. by rewrite fraction_digits_value.
  - specialize (IH (10 * coeff + default 0%N (digit_of c))%N).
    destruct (split_point s) as [intpart frac]. cbn [digits_value].
    destruct (digit_of c) as [k|]; simpl; [exact IH|reflexivity].
Qed.

Lemma split_point_join (s : string) :
  let '(intpart, frac) := split_point s in
  s = intpart +:+ match frac with
                  | Some fracpart => "." +:+ fracpart
                  | None => ""
                  end.
Proof.
  induction s as [|c s IH]; [reflexivity|]. cbn [split_point].
  destruct (Ascii.eqb_spec c ".") as [->|_]; [reflexivity|].
  destruct (split_point s) as [intpart frac]. rewrite app_str_cons. by f_equal.
Qed.

Lemma has_digit_app (a b : string) :
  has_digit (a +:+ b) = (has_digit a || has_digit b)%bool.
Proof.
  induction a as [|c a IH]; [reflexivity|].
  rewrite app_str_cons. cbn [has_digit]. by rewrite IH, orb_assoc.
Qed.

Lemma has_digit_split (s : string) :
  has_digit s
  = let '(intpart, frac) := split_point s in has_digit (intpart +:+ default "" frac).
Proof.
  pose proof (split_point_join s) as Hjoin.
  destruct (split_point s) as [intpart [fracpart|]].
  - rewrite Hjoin at 1. by rewrite !has_digit_app.
  - by rewrite Hjoin at 1.
Qed.

Lemma uint_of_string_has_digit (c : ascii) (s : string) (d : uint) :
  NilEmpty.uint_of_string (String c s) = Some d -> has_digit (String c s) = true.
Proof.
  cbn [NilEmpty.uint_of_string has_digit].
  destruct (NilEmpty.uint_of_string s) as [d'|]; [|by destruct c as [[] [] [] [] [] [] [] []]].
  intros Hc. pose proof (uint_of_char_digit c d' 0) as Hd. rewrite Hc in Hd.
  destruct (digit_of c) as [k|]; [|done]. reflexivity.
Qed.

Lemma unsigned_string_value_parse (s : string) :
  unsigned_string_value s = parse_unsigned s.
Proof.
  unfold unsigned_string_value, parse_unsigned.
  rewrite has_digit_split, integer_digits_split.
  destruct (split_point s) as [intpart frac].
  assert (Hvalue :
            digits_value 0 intpart ≫= (fun x =>
              (fun y => (y, String.length (default "" frac)))
                <$> digits_value x (default "" frac))
            = (fun y => (y, String.length (default "" frac)))
                <$> digits_value 0 (intpart +:+ default "" frac)).
  { rewrite digits_value_app. by destruct (digits_value 0 intpart). }
  rewrite Hvalue, digits_value_uint. clear Hvalue.
  destruct (intpart +:+ default "" frac) as [|c digits] eqn:Hdigits; [reflexivity|].
  destruct (NilEmpty.uint_of_string (String c digits)) as [d|] eqn:Hd.
  - rewrite (uint_of_string_has_digit _ _ _ Hd). simpl. by rewrite of_uint_horner.
  - by destruct (has_digit (String c digits)).
Qed.

Lemma decimal_string_value_parse (s : string) :
  decimal_string_value s = FVal_value <$> FVal_of_string s.
Proof.
  destruct s as [|c r]; [reflexivity|].
  unfold decimal_string_value, FVal_of_string.
  rewrite !unsigned_string_value_parse.
  destruct (Ascii.eqb c "-"); [|destruct (Ascii.eqb c "+")];
    match goal with |- context [parse_unsigned ?x] =>
      destruct (parse_unsigned x) as [[n k]|] end; reflexivity.
Qed.

(** C5: the amount field round-trips.  For every decimal string, read
    digit by digit as the number [q], the field deserializes the string to a
    value that denotes [q], and serializing that value gives a decimal string
    that denotes [q] again, digit for digit: nothing is lost. *)
Theorem AmountField_roundtrip (s : string) (q : Q) :
  decimal_string_value s = Some q ->
  exists v,
    AmountField_deserialize (RawStr s) = Ok v /\
    FVal_value v = q /\
    decimal_string_value (AmountField_serialize v) = Some q.
Proof.
  rewrite decimal_string_value_parse.
  destruct (FVal_of_string s) as [p|] eqn:Hparse; [|discriminate].
  intros [= <-]. exists p. split; [|split; [reflexivity|]].
  - unfold AmountField_deserialize, deserialize_asset_amount, FVal_init.
    by rewrite Hparse.
  - unfold AmountField_serialize.
    by rewrite decimal_string_value_parse, FVal_of_string_str.
Qed.

Lemma AmountField_roundtrip_witness :
  exists v,
    AmountField_deserialize (RawStr "-12.50") = Ok v /\
    FVal_value v = Qmake (-1250) 100 /\
    decimal_string_value (AmountField_serialize v) = Some (Qmake (-1250) 100).
Proof.
  exact (AmountField_roundtrip "-12.50" (Qmake (-1250) 100) eq_refl).
Defined.

(** ** Start-up: route registration *)

Lemma endpoint_names_resolved {RestAPI : Type} (rest_api : RestAPI)
    (urls : list url_tuple) :
  reg_endpoint <$> omap (resolved_registration rest_api) urls = endpoint_names urls.
Proof.
  unfold endpoint_names. induction urls as [|t urls IH]; [reflexivity|].
  destruct t as [route c|route c e|r]; simpl; [f_equal; exact IH..|exact IH].
Qed.

Lemma resolved_registration_length {RestAPI : Type} (rest_api : RestAPI)
    (urls : list url_tuple) :
  forallb well_formed_tuple urls = true ->
  length (omap (resolved_registration rest_api) urls) = length urls.
Proof.
  induction urls as [|t urls IH]; [reflexivity|].
  destruct t as [route c|route c e|r]; simpl; [| |discriminate];
    intros Hwf; f_equal; by apply IH.
Qed.

Section StartupContract.
Context {Api RestAPI App : Type}.
Variable new_api_context : Api.
Variable add_resource : Api -> Resource -> string -> RestAPI -> string -> result Api.
Variable register_blueprint : Api -> result App.
(** What the framework keeps of the calls of [add_resource] made on a
    context. *)
Variable recorded : Api -> list (registration RestAPI).

(** The contract of the framework: a call of [add_resource] that returns has
    recorded the registration it was given, and a blueprint is not mounted on
    the application with two registrations under one endpoint name. *)
Hypothesis add_resource_records :
  forall ctx resource_cls route rest_api endpoint ctx',
    add_resource ctx resource_cls route rest_api endpoint = Ok ctx' ->
    recorded ctx'
    = recorded ctx ++ [{| reg_resource := resource_cls; reg_route := route;
                          reg_rest_api_object := rest_api;
                          reg_endpoint := endpoint |}].
Hypothesis register_blueprint_unique :
  forall ctx app,
    register_blueprint ctx = Ok app -> NoDup (reg_endpoint <$> recorded ctx).

Lemma setup_urls_recorded (rest_api : RestAPI) (urls : list url_tuple) (ctx ctx' : Api) :
  setup_urls add_resource ctx rest_api urls = Ok ctx' ->
  recorded ctx' = recorded ctx ++ omap (resolved_registration rest_api) urls.
Proof.
  revert ctx. induction urls as [|t urls IH]; intros ctx Hrun.
  - injection Hrun as <-. by rewrite app_nil_r.
  - destruct t as [route c|route c e|r]; simpl in Hrun; [| |discriminate].
    + destruct (add_resource ctx c route rest_api (lower (__name__ c)))
        as [ctx1|e1] eqn:Hadd; simpl in Hrun; [|discriminate].
      rewrite (IH _ Hrun), (add_resource_records _ _ _ _ _ _ Hadd).
      by rewrite <- app_assoc.
    + destruct (add_resource ctx c route rest_api e)
        as [ctx1|e1] eqn:Hadd; simpl in Hrun; [|discriminate].
      rewrite (IH _ Hrun), (add_resource_records _ _ _ _ _ _ Hadd).
      by rewrite <- app_assoc.
Qed.

Lemma APIServer_init_with_unique (urls : list url_tuple) (rest_api : RestAPI)
    (server : APIServer RestAPI App) :
  APIServer_init_with new_api_context add_resource register_blueprint urls rest_api
    = Ok server ->
  NoDup (endpoint_names urls).
Proof.
  unfold APIServer_init_with. intros Hinit.
  destruct (setup_urls add_resource new_api_context rest_api urls)
    as [ctx|e] eqn:Hsetup; simpl in Hinit; [|discriminate].
  destruct (register_blueprint ctx) as [app|e] eqn:Hmount; simpl in Hinit;
    [|discriminate].
  apply register_blueprint_unique in Hmount.
  rewrite (setup_urls_recorded _ _ _ _ Hsetup), fmap_app in Hmount.
  apply NoDup_app in Hmount as (_ & _ & Hnew).
  by rewrite endpoint_names_resolved in Hnew.
Qed.

End StartupContract.


(** ** Start-up: error handlers *)


